(** * Filter input types of nestjs-graphql-tools

    A shallow embedding of [src/lib/filters/filter.ts]: the three
    process-wide caches, the class objects the generators synthesize and
    decorate, and the decorator factory [Filter].

    Class objects live in a store and are referred to by location, because
    the source caches a class first and decorates it afterwards: the cache
    and the caller share one object.

    Two things are taken from outside the file. Type functions
    ([ReturnTypeFunc]) are pure: calling one yields a type and does nothing
    else. The host library is a parameter: its lookups, and its calls that
    may throw and that compile a registry entry. *)

From stdpp Require Import base option list gmap strings fin_maps.

Open Scope string_scope.
Open Scope list_scope.

(** ** Values of the host language *)

(** Locations of the class objects created by this file. *)
Abbreviation loc := nat.

(** What a [ReturnTypeFunc] may yield: a scalar constructor, a class declared
    by the application (known by identity), a class synthesized here, or an
    array literal around one of these. *)
Inductive GqlTypeReference :=
| TString
| TInt
| TFloat
| TBoolean
| TID
| TDateTime
| TClass (ident : nat)
| TSynth (l : loc)
| TList (t : GqlTypeReference).

Definition ReturnTypeFunc := unit → GqlTypeReference.

Inductive JsValue :=
| JBoolean (b : bool)
| JString (s : string)
| JEmptyObject.

(** Option bags such as [{...field.options, nullable: true}]. *)
Abbreviation FieldOptions := (gmap string JsValue).

Record JsError := { message : string }.

(** ** enum OperationQuery *)

Inductive OperationQuery :=
| OQ_eq
| OQ_neq
| OQ_gt
| OQ_gte
| OQ_lt
| OQ_lte
| OQ_in
| OQ_notin
| OQ_like
| OQ_notlike
| OQ_between
| OQ_notbetween
| OQ_null.

#[global] Instance OperationQuery_eq_dec : EqDecision OperationQuery.
Proof. solve_decision. Defined.

(** The members are string-valued and every key equals its value, so one
    function gives both [operationName] and [OperationQuery[operationName]]. *)
Definition operationName (op : OperationQuery) : string :=
  match op with
  | OQ_eq => "eq"
  | OQ_neq => "neq"
  | OQ_gt => "gt"
  | OQ_gte => "gte"
  | OQ_lt => "lt"
  | OQ_lte => "lte"
  | OQ_in => "in"
  | OQ_notin => "notin"
  | OQ_like => "like"
  | OQ_notlike => "notlike"
  | OQ_between => "between"
  | OQ_notbetween => "notbetween"
  | OQ_null => "null"
  end.

(** [Object.keys(OperationQuery)], in declaration order. *)
Definition Object_keys_OperationQuery : list OperationQuery :=
  [OQ_eq; OQ_neq; OQ_gt; OQ_gte; OQ_lt; OQ_lte; OQ_in; OQ_notin;
   OQ_like; OQ_notlike; OQ_between; OQ_notbetween; OQ_null].

(** [new Set([OperationQuery.between, OperationQuery.notbetween, OperationQuery.in])] *)
Definition arrayLikeOperations : list OperationQuery :=
  [OQ_between; OQ_notbetween; OQ_in].

Definition arrayLikeOperations_has (op : OperationQuery) : bool :=
  bool_decide (op ∈ arrayLikeOperations).

(** [enum InputMapPrefixes] *)
Module InputMapPrefixes.
Definition PropertyFilterType : string := "PropertyFilterType".
Definition FilterInputType : string := "FilterInputType".
End InputMapPrefixes.

(** ** Declarations handed to the generators *)

(** An element of [properties]: either a property of the metadata registry
    (which carries [options]) or the object literal built for a custom filter
    field (which carries [qlExp] and no [options]). *)
Module FilterFieldDefinition.
Record t := mk {
  name : string;
  typeFn : ReturnTypeFunc;
  options : option FieldOptions;
  qlExp : option string
}.
End FilterFieldDefinition.

(** [FilterInputTypeFieldMetadata]: what a custom filter field declares;
    [sqlExp] stands for [options.sqlExp]. *)
Module FilterInputTypeFieldMetadata.
Record t := mk {
  name : string;
  typeFn : ReturnTypeFunc;
  sqlExp : string
}.
End FilterInputTypeFieldMetadata.

Module CustomFilterFieldDefinition.
Record t := mk {
  name : string;
  typeFn : ReturnTypeFunc;
  sqlExp : string
}.
End CustomFilterFieldDefinition.

(** An entity class as this file reads it: its [name], its identity, the
    reflected metadata under [CUSTOM_FILTER_INPUT_TYPE_DECORATOR_NAME]
    (the [fields] of it, when present), [__extension__], and the two
    prototype members [filterInputType] and [getFields]. *)
Module BaseEntity.
Record t := mk {
  name : string;
  ident : nat;
  customFilterData : option (list FilterInputTypeFieldMetadata.t);
  __extension__ : option string;
  filterInputType : bool;
  getFields : unit → list FilterInputTypeFieldMetadata.t
}.
End BaseEntity.

(** ** Outcomes of a call *)

Inductive Completion (A : Type) :=
| Normal (a : A)
| Throw (e : JsError).
Arguments Normal {A} a.
Arguments Throw {A} e.

#[global] Instance Completion_ret : MRet Completion := λ A a, Normal a.

#[global] Instance Completion_bind : MBind Completion := λ A B f c,
  match c with
  | Normal a => f a
  | Throw e => Throw e
  end.

(** ** The host library (an external collaborator)

    An entry of the registry; [properties] is its field list, [None] when it
    has none. *)
Module ObjectTypeMetadata.
Record t := mk {
  targetName : string;
  properties : option (list FilterFieldDefinition.t)
}.
End ObjectTypeMetadata.

(** The calls the generators make into the host. The two lookups read the
    registry. The three others may throw. [compileClassMetadata([m])] writes
    into the entry it is given: what it returns here is that entry as the call
    leaves it. [PartialType(typeFn, InputType)] is kept with the registry it
    reads; the class it builds is dropped by the caller. *)
Record TypeMetadataStorage := {
  getObjectTypeMetadataByTarget : GqlTypeReference → option ObjectTypeMetadata.t;
  getObjectTypesMetadata : list ObjectTypeMetadata.t;
  PartialType : BaseEntity.t → Completion unit;
  loadClassPluginMetadata : option ObjectTypeMetadata.t → Completion unit;
  compileClassMetadata :
    option ObjectTypeMetadata.t → Completion (option ObjectTypeMetadata.t)
}.

(** ** Class objects and the process state *)

(** One application of the [Field] decorator to a class. *)
Record FieldMetadata := {
  propertyKey : string;
  returnTypeFunc : option ReturnTypeFunc;
  fieldOptions : FieldOptions
}.

Record InputTypeMetadata := {
  inputTypeName : string;
  isAbstract : bool
}.

Record ClassObject := {
  className : string;
  superClass : option loc;
  inputType : option InputTypeMetadata;
  classFields : list FieldMetadata
}.

Module ArgsOptions.
Record t := mk {
  name : string;
  nullable : bool;
  defaultValue : JsValue;
  type : ReturnTypeFunc
}.
End ArgsOptions.

Module IFilterDecoratorParams.
Record t := mk {
  name : option string
}.
End IFilterDecoratorParams.

(** One application of [Args(...)(target, propertyName, paramIndex)]. *)
Record ArgsMetadata := {
  argsTarget : nat;
  argsPropertyName : string;
  argsParamIndex : nat;
  argsOptions : ArgsOptions.t
}.

Record State := {
  heap : list ClassObject;
  filterFullTypes : gmap string loc;
  filterTypes : gmap string loc;
  propertyTypes : gmap string loc;
  reflectMetadata : gmap (string * (nat * string)) (list CustomFilterFieldDefinition.t);
  argsMetadata : list ArgsMetadata
}.

Definition initialState : State :=
  {| heap := []; filterFullTypes := ∅; filterTypes := ∅; propertyTypes := ∅;
     reflectMetadata := ∅; argsMetadata := [] |}.

Definition set_heap (f : list ClassObject → list ClassObject) (s : State) : State :=
  {| heap := f (heap s); filterFullTypes := filterFullTypes s;
     filterTypes := filterTypes s; propertyTypes := propertyTypes s;
     reflectMetadata := reflectMetadata s; argsMetadata := argsMetadata s |}.

Definition set_filterFullTypes (f : gmap string loc → gmap string loc) (s : State) : State :=
  {| heap := heap s; filterFullTypes := f (filterFullTypes s);
     filterTypes := filterTypes s; propertyTypes := propertyTypes s;
     reflectMetadata := reflectMetadata s; argsMetadata := argsMetadata s |}.

Definition set_filterTypes (f : gmap string loc → gmap string loc) (s : State) : State :=
  {| heap := heap s; filterFullTypes := filterFullTypes s;
     filterTypes := f (filterTypes s); propertyTypes := propertyTypes s;
     reflectMetadata := reflectMetadata s; argsMetadata := argsMetadata s |}.

Definition set_propertyTypes (f : gmap string loc → gmap string loc) (s : State) : State :=
  {| heap := heap s; filterFullTypes := filterFullTypes s;
     filterTypes := filterTypes s; propertyTypes := f (propertyTypes s);
     reflectMetadata := reflectMetadata s; argsMetadata := argsMetadata s |}.

(** ** Computations: state passing with exceptions

    A thrown error keeps the state reached so far, as in the source, where
    nothing is rolled back. *)
Definition M (A : Type) : Type := State → Completion A * State.

#[global] Instance M_ret : MRet M := λ A a s, (Normal a, s).

#[global] Instance M_bind : MBind M := λ A B f m s,
  match m s with
  | (Normal a, s') => f a s'
  | (Throw e, s') => (Throw e, s')
  end.

Definition gets {A} (f : State → A) : M A := λ s, (Normal (f s), s).
Definition modify (f : State → State) : M unit := λ s, (Normal tt, f s).

Definition liftCompletion {A} (c : Completion A) : M A := λ s, (c, s).

(** [for (const x of l) body(x)] and [l.forEach(body)]. *)
Fixpoint forOf {A} (l : list A) (body : A → M unit) : M unit :=
  match l with
  | [] => mret tt
  | x :: l' => body x ;; forOf l' body
  end.

(** [class C {}] or [class C extends S {}]: a fresh object. *)
Definition newClass (name : string) (super : option loc) : M loc := λ s,
  (Normal (length (heap s)),
   set_heap (λ h, h ++ [{| className := name; superClass := super;
                           inputType := None; classFields := [] |}]) s).

(** [InputType(name, {isAbstract})(cls)] *)
Definition InputType (name : string) (abstract : bool) (cls : loc) : M unit :=
  modify (set_heap (alter (λ c,
    {| className := className c; superClass := superClass c;
       inputType := Some {| inputTypeName := name; isAbstract := abstract |};
       classFields := classFields c |}) cls)).

Definition appendField (r : FieldMetadata) (c : ClassObject) : ClassObject :=
  {| className := className c; superClass := superClass c;
     inputType := inputType c; classFields := classFields c ++ [r] |}.

Definition appendFields (rs : list FieldMetadata) (c : ClassObject) : ClassObject :=
  {| className := className c; superClass := superClass c;
     inputType := inputType c; classFields := classFields c ++ rs |}.

(** [Field(typeFunc, options)(cls.prototype, key)]: the application is
    recorded on the class, after the earlier ones. How the schema host treats
    two applications with one property key is its own business. *)
Definition Field (typeFunc : option ReturnTypeFunc) (opts : FieldOptions)
    (cls : loc) (key : string) : M unit :=
  modify (set_heap (alter (appendField
    {| propertyKey := key; returnTypeFunc := typeFunc; fieldOptions := opts |}) cls)).

(** [Object.defineProperty(cls, 'name', {value})] *)
Definition defineName (cls : loc) (value : string) : M unit :=
  modify (set_heap (alter (λ c,
    {| className := value; superClass := superClass c;
       inputType := inputType c; classFields := classFields c |}) cls)).

(** ** The generators *)

Section Generators.

(** Constants of [./constants], a file outside this development, and the
    metadata registry of the host library. *)
Variable FILTER_OPERATION_PREFIX : option string.
Variable FILTER_DECORATOR_NAME_METADATA_KEY : string.
Variable FILTER_DECORATOR_CUSTOM_FIELDS_METADATA_KEY : string.
Variable storage : TypeMetadataStorage.

(** [FILTER_OPERATION_PREFIX ? `${FILTER_OPERATION_PREFIX}${operationName}` : operationName] *)
Definition operationPropertyKey (op : OperationQuery) : string :=
  match FILTER_OPERATION_PREFIX with
  | Some prefix =>
      if decide (prefix = "") then operationName op
      else prefix +:+ operationName op
  | None => operationName op
  end.

(** The type function given to [Field] for one operation. *)
Definition operationReturnType (field : FilterFieldDefinition.t)
    (op : OperationQuery) : ReturnTypeFunc := λ _,
  if arrayLikeOperations_has op then
    TList (FilterFieldDefinition.typeFn field tt)
  else if bool_decide (op ∈ [OQ_null]) then
    TBoolean
  else
    FilterFieldDefinition.typeFn field tt.

(** [{...field.options, nullable: true}] *)
Definition operationFieldOptions (field : FilterFieldDefinition.t) : FieldOptions :=
  <["nullable" := JBoolean true]> (default ∅ (FilterFieldDefinition.options field)).

Definition propertyTypeKey (fieldName parentName : string) : string :=
  fieldName +:+ parentName +:+ InputMapPrefixes.PropertyFilterType.

Definition generateFilterPropertyType (field : FilterFieldDefinition.t)
    (parentName : string) : M loc :=
  let key := propertyTypeKey (FilterFieldDefinition.name field) parentName in
  propType ← gets (λ s, propertyTypes s !! key);
  match propType with
  | Some cached => mret cached
  | None =>
      PropertyFilter ← newClass "PropertyFilter" None;
      InputType key true PropertyFilter;;
      forOf Object_keys_OperationQuery (λ op,
        Field (Some (operationReturnType field op)) (operationFieldOptions field)
              PropertyFilter (operationPropertyKey op));;
      defineName PropertyFilter key;;
      modify (set_propertyTypes <[key := PropertyFilter]>);;
      mret PropertyFilter
  end.

Definition concatClassNames (classes : list BaseEntity.t) : string :=
  String.concat "" (map BaseEntity.name classes).

Definition filterTypeKey (classes : list BaseEntity.t) : string :=
  concatClassNames classes +:+ InputMapPrefixes.PropertyFilterType.

(** The object literal built for a custom filter field. *)
Definition customProp (x : FilterInputTypeFieldMetadata.t) : FilterFieldDefinition.t :=
  {| FilterFieldDefinition.name := FilterInputTypeFieldMetadata.name x;
     FilterFieldDefinition.typeFn := FilterInputTypeFieldMetadata.typeFn x;
     FilterFieldDefinition.options := None;
     FilterFieldDefinition.qlExp := Some (FilterInputTypeFieldMetadata.sqlExp x) |}.

Definition uninitializedError (typeFn : BaseEntity.t) : JsError :=
  {| message := "DTO " +:+ BaseEntity.name typeFn +:+ " hasn't been initialized yet" |}.

(** [objectTypesMetadata.find(x => x.target.name === typeFn?.__extension__)] *)
Definition findInheritedType (typeFn : BaseEntity.t) : option ObjectTypeMetadata.t :=
  List.find (λ x, bool_decide (Some (ObjectTypeMetadata.targetName x)
                               = BaseEntity.__extension__ typeFn))
            (getObjectTypesMetadata storage).

(** The [else] branch of the first loop for one entity: the calls into the
    host in the order of the source, each of which may throw, then the check
    of the field list and what is pushed. An entry that was not found stays
    undefined whatever the compilation does. *)
Definition registryProperties (typeFn : BaseEntity.t)
    : Completion (list FilterFieldDefinition.t) :=
  _ ← PartialType storage typeFn;
  let found := getObjectTypeMetadataByTarget storage (TClass (BaseEntity.ident typeFn)) in
  _ ← loadClassPluginMetadata storage found;
  compiled ← compileClassMetadata storage found;
  let classMetadata := found ≫= λ _, compiled in
  inheritedType ←
    match findInheritedType typeFn with
    | Some inherited =>
        _ ← loadClassPluginMetadata storage (Some inherited);
        compiledInherited ← compileClassMetadata storage (Some inherited);
        Normal (Some (default inherited compiledInherited))
    | None => Normal None
    end;
  match classMetadata ≫= ObjectTypeMetadata.properties with
  | None => Throw (uninitializedError typeFn)
  | Some own =>
      Normal (default [] (inheritedType ≫= ObjectTypeMetadata.properties) ++ own)
  end.

(** The first loop: [properties] grows entity by entity, or the loop throws.
    It touches none of the caches and none of the synthesized classes. *)
Fixpoint collectProperties (classes : list BaseEntity.t)
    (properties : list FilterFieldDefinition.t)
    : Completion (list FilterFieldDefinition.t) :=
  match classes with
  | [] => Normal properties
  | typeFn :: rest =>
      match BaseEntity.customFilterData typeFn with
      | Some fields =>
          let props := map customProp fields in
          collectProperties rest (properties ++ props)
      | None =>
          match registryProperties typeFn with
          | Normal found => collectProperties rest (properties ++ found)
          | Throw e => Throw e
          end
      end
  end.

(** The body of the second loop. *)
Definition addFilterField (PartialObjectType : loc) (concatinatedClassNames : string)
    (field : FilterFieldDefinition.t) : M unit :=
  match getObjectTypeMetadataByTarget storage (FilterFieldDefinition.typeFn field tt) with
  | None =>
      fieldType ← generateFilterPropertyType field concatinatedClassNames;
      Field (Some (λ _, TSynth fieldType)) {["nullable" := JBoolean true]}
            PartialObjectType (FilterFieldDefinition.name field)
  | Some _ => mret tt
  end.

Definition generateFilterInputType (classes : list BaseEntity.t) : M loc :=
  let concatinatedClassNames := concatClassNames classes in
  let key := concatinatedClassNames +:+ InputMapPrefixes.PropertyFilterType in
  cached ← gets (λ s, filterTypes s !! key);
  match cached with
  | Some found => mret found
  | None =>
      PartialObjectType ← newClass "PartialObjectType" None;
      InputType key true PartialObjectType;;
      defineName PartialObjectType key;;
      modify (set_filterTypes <[key := PartialObjectType]>);;
      properties ← liftCompletion (collectProperties classes []);
      forOf properties (addFilterField PartialObjectType concatinatedClassNames);;
      mret PartialObjectType
  end.

Definition fullTypeKey (classes : list BaseEntity.t) : string :=
  "where" +:+ concatClassNames classes +:+ "Input".

Definition discriminatorOptions : FieldOptions :=
  <["description" :=
      JString "Don't touch this field. Reserved for nestjs-graphql-toos purposes."]>
    {["defaultValue" := JString FILTER_DECORATOR_NAME_METADATA_KEY]}.

(** Property decorators of a class run in declaration order, before its class
    decorator. *)
Definition getFilterFullInputType (classes : list BaseEntity.t) : M loc :=
  let key := fullTypeKey classes in
  cached ← gets (λ s, filterFullTypes s !! key);
  match cached with
  | Some found => mret found
  | None =>
      FilterInputType ← generateFilterInputType classes;
      EntityWhereInput ← newClass "EntityWhereInput" (Some FilterInputType);
      Field None discriminatorOptions EntityWhereInput "_name_";;
      Field (Some (λ _, TList (TSynth FilterInputType)))
            {["nullable" := JBoolean true]} EntityWhereInput "and";;
      Field (Some (λ _, TList (TSynth FilterInputType)))
            {["nullable" := JBoolean true]} EntityWhereInput "or";;
      InputType key false EntityWhereInput;;
      modify (set_filterFullTypes <[key := EntityWhereInput]>);;
      mret EntityWhereInput
  end.

(** [Reflect.defineMetadata(key, value, target, propertyName)] *)
Definition Reflect_defineMetadata (key : string)
    (value : list CustomFilterFieldDefinition.t) (target : nat)
    (propertyName : string) : M unit :=
  modify (λ s,
    {| heap := heap s; filterFullTypes := filterFullTypes s;
       filterTypes := filterTypes s; propertyTypes := propertyTypes s;
       reflectMetadata := <[(key, (target, propertyName)) := value]> (reflectMetadata s);
       argsMetadata := argsMetadata s |}).

(** [Args(options)(target, propertyName, paramIndex)] *)
Definition Args (options : ArgsOptions.t) (target : nat) (propertyName : string)
    (paramIndex : nat) : M unit :=
  modify (λ s,
    {| heap := heap s; filterFullTypes := filterFullTypes s;
       filterTypes := filterTypes s; propertyTypes := propertyTypes s;
       reflectMetadata := reflectMetadata s;
       argsMetadata := argsMetadata s ++
         [{| argsTarget := target; argsPropertyName := propertyName;
             argsParamIndex := paramIndex; argsOptions := options |}] |}).

Definition customFieldOf (field : FilterInputTypeFieldMetadata.t)
    : CustomFilterFieldDefinition.t :=
  {| CustomFilterFieldDefinition.name := FilterInputTypeFieldMetadata.name field;
     CustomFilterFieldDefinition.typeFn := FilterInputTypeFieldMetadata.typeFn field;
     CustomFilterFieldDefinition.sqlExp := FilterInputTypeFieldMetadata.sqlExp field |}.

(** The [reduce] of [Filter]. *)
Definition collectCustomFields (typeFunctions : list BaseEntity.t)
    : list CustomFilterFieldDefinition.t :=
  foldl (λ acc x,
           if BaseEntity.filterInputType x then
             acc ++ map customFieldOf (BaseEntity.getFields x tt)
           else acc)
        [] typeFunctions.

(** [options?.name || 'where'] *)
Definition argumentName (options : option IFilterDecoratorParams.t) : string :=
  match options ≫= IFilterDecoratorParams.name with
  | Some n => if decide (n = "") then "where" else n
  | None => "where"
  end.

Definition ParameterDecorator : Type := nat → string → nat → M unit.

Definition Filter (baseEntity : unit → BaseEntity.t + list BaseEntity.t)
    (options : option IFilterDecoratorParams.t) : M ParameterDecorator :=
  let extractedResults := baseEntity tt in
  let typeFunctions :=
    match extractedResults with
    | inl single => [single]
    | inr several => several
    end in
  filterFullType ← getFilterFullInputType typeFunctions;
  let customFields := collectCustomFields typeFunctions in
  mret (λ target propertyName paramIndex,
    Reflect_defineMetadata FILTER_DECORATOR_CUSTOM_FIELDS_METADATA_KEY
                           customFields target propertyName;;
    Args {| ArgsOptions.name := argumentName options;
            ArgsOptions.nullable := true;
            ArgsOptions.defaultValue := JEmptyObject;
            ArgsOptions.type := λ _, TSynth filterFullType |}
         target propertyName paramIndex).

(** *** Closed forms of what the generators leave behind *)

Definition operationField (field : FilterFieldDefinition.t) (op : OperationQuery)
    : FieldMetadata :=
  {| propertyKey := operationPropertyKey op;
     returnTypeFunc := Some (operationReturnType field op);
     fieldOptions := operationFieldOptions field |}.

(** The class a cache miss of [generateFilterPropertyType] adds to the store. *)
Definition propertyFilterClass (field : FilterFieldDefinition.t) (parentName : string)
    : ClassObject :=
  let key := propertyTypeKey (FilterFieldDefinition.name field) parentName in
  {| className := key; superClass := None;
     inputType := Some {| inputTypeName := key; isAbstract := true |};
     classFields := map (operationField field) Object_keys_OperationQuery |}.

(** A field is relation-valued when the registry knows its value type. *)
Definition isRelation (field : FilterFieldDefinition.t) : bool :=
  match getObjectTypeMetadataByTarget storage (FilterFieldDefinition.typeFn field tt) with
  | Some _ => true
  | None => false
  end.

Definition filterField (field : FilterFieldDefinition.t) (fieldType : loc)
    : FieldMetadata :=
  {| propertyKey := FilterFieldDefinition.name field;
     returnTypeFunc := Some (λ _, TSynth fieldType);
     fieldOptions := {["nullable" := JBoolean true]} |}.

(** The state after one turn of the second loop. *)
Definition addFilterField_state (PartialObjectType : loc) (parentName : string)
    (s : State) (field : FilterFieldDefinition.t) : State :=
  if isRelation field then s
  else
    let key := propertyTypeKey (FilterFieldDefinition.name field) parentName in
    match propertyTypes s !! key with
    | Some cached =>
        set_heap (alter (appendField (filterField field cached)) PartialObjectType) s
    | None =>
        set_heap (alter (appendField (filterField field (length (heap s))))
                        PartialObjectType)
          (set_propertyTypes <[key := length (heap s)]>
             (set_heap (λ h, h ++ [propertyFilterClass field parentName]) s))
    end.

(** The state in which the second call of [generateFilterInputType] starts to
    resolve fields: the empty class is in the store and in the cache. *)
Definition placeholderClass (key : string) : ClassObject :=
  {| className := key; superClass := None;
     inputType := Some {| inputTypeName := key; isAbstract := true |};
     classFields := [] |}.

Definition placeholderState (key : string) (s : State) : State :=
  set_filterTypes <[key := length (heap s)]>
    (set_heap (λ h, h ++ [placeholderClass key]) s).

(** The class [getFilterFullInputType] builds around an entity filter type. *)
Definition entityWhereInputClass (key : string) (FilterInputType : loc) : ClassObject :=
  {| className := "EntityWhereInput"; superClass := Some FilterInputType;
     inputType := Some {| inputTypeName := key; isAbstract := false |};
     classFields :=
       [ {| propertyKey := "_name_"; returnTypeFunc := None;
            fieldOptions := discriminatorOptions |};
         {| propertyKey := "and";
            returnTypeFunc := Some (λ _, TList (TSynth FilterInputType));
            fieldOptions := {["nullable" := JBoolean true]} |};
         {| propertyKey := "or";
            returnTypeFunc := Some (λ _, TList (TSynth FilterInputType));
            fieldOptions := {["nullable" := JBoolean true]} |} ] |}.

End Generators.

(** The attributes a class exposes: those of its superclass chain, then its
    own. [fuel] bounds the length of the chain that is followed. *)
Fixpoint exposedFields (fuel : nat) (h : list ClassObject) (cls : loc)
    : list FieldMetadata :=
  match fuel with
  | 0 => []
  | S fuel' =>
      match h !! cls with
      | None => []
      | Some c =>
          match superClass c with
          | Some parent => exposedFields fuel' h parent
          | None => []
          end ++ classFields c
      end
  end.

(** What a reader of the schema sees of one attribute: its name, the type its
    type function yields, and whether it may be left out. *)
Definition attributeView (r : FieldMetadata)
    : string * option GqlTypeReference * option JsValue :=
  (propertyKey r, (λ f : ReturnTypeFunc, f tt) <$> returnTypeFunc r,
   fieldOptions r !! "nullable").

(** The first attribute of class [cls] under the name [key]. *)
Definition lookupAttribute (h : list ClassObject) (cls : loc) (key : string)
    : option FieldMetadata :=
  h !! cls ≫= λ c, List.find (λ r, bool_decide (propertyKey r = key)) (classFields c).

Definition attributeType (h : list ClassObject) (cls : loc) (key : string)
    : option GqlTypeReference :=
  lookupAttribute h cls key ≫= λ r, (λ f : ReturnTypeFunc, f tt) <$> returnTypeFunc r.

(** The arity rule as the source has it. *)
Definition arityRule (op : OperationQuery) (scalar : GqlTypeReference) : GqlTypeReference :=
  match op with
  | OQ_in | OQ_between | OQ_notbetween => TList scalar
  | OQ_null => TBoolean
  | _ => scalar
  end.

(** Entity filter types in the cache are in the store, and no two groups
    share one. *)
Record wf (s : State) : Prop := {
  wf_filterTypes_bound :
    ∀ k l, filterTypes s !! k = Some l → l < length (heap s);
  wf_filterTypes_inj :
    ∀ k1 k2 l, filterTypes s !! k1 = Some l → filterTypes s !! k2 = Some l → k1 = k2
}.

(** The decorator [Filter] hands back, as a function of what it closes over. *)
Definition filterDecorator (metadataKey : string)
    (customFields : list CustomFilterFieldDefinition.t) (argName : string)
    (filterFullType : loc) : nat → string → nat → M unit :=
  λ target propertyName paramIndex,
    Reflect_defineMetadata metadataKey customFields target propertyName;;
    Args {| ArgsOptions.name := argName;
            ArgsOptions.nullable := true;
            ArgsOptions.defaultValue := JEmptyObject;
            ArgsOptions.type := λ _, TSynth filterFullType |}
         target propertyName paramIndex.

(** [s'] keeps every class object and every cache entry of [s]. *)
Record extends (s s' : State) : Prop := {
  extends_heap : ∀ l c, heap s !! l = Some c → heap s' !! l = Some c;
  extends_filterFullTypes :
    ∀ k l, filterFullTypes s !! k = Some l → filterFullTypes s' !! k = Some l;
  extends_filterTypes :
    ∀ k l, filterTypes s !! k = Some l → filterTypes s' !! k = Some l;
  extends_propertyTypes :
    ∀ k l, propertyTypes s !! k = Some l → propertyTypes s' !! k = Some l
}.

(** Every cached class is in the store under the schema name that is its cache
    key: a predicate type is abstract and has the operation attributes; an
    entity filter type is abstract and extends nothing; a root type is
    concrete, declares its three attributes and extends the entity filter
    type cached for the same names. No class is both a predicate type and an
    entity filter type. *)
Record cachesNamed (FILTER_OPERATION_PREFIX : option string) (s : State) : Prop := {
  named_predicates :
    ∀ k l, propertyTypes s !! k = Some l →
      ∃ c, heap s !! l = Some c
           ∧ className c = k
           ∧ inputType c = Some {| inputTypeName := k; isAbstract := true |}
           ∧ map propertyKey (classFields c)
               = map (operationPropertyKey FILTER_OPERATION_PREFIX)
                     Object_keys_OperationQuery;
  named_filters :
    ∀ k l, filterTypes s !! k = Some l →
      ∃ c, heap s !! l = Some c
           ∧ className c = k
           ∧ inputType c = Some {| inputTypeName := k; isAbstract := true |}
           ∧ superClass c = None;
  named_roots :
    ∀ k l, filterFullTypes s !! k = Some l →
      ∃ c parent names,
        heap s !! l = Some c
        ∧ inputType c = Some {| inputTypeName := k; isAbstract := false |}
        ∧ k = "where" +:+ names +:+ "Input"
        ∧ superClass c = Some parent
        ∧ filterTypes s !! (names +:+ InputMapPrefixes.PropertyFilterType) = Some parent
        ∧ map propertyKey (classFields c) = ["_name_"; "and"; "or"];
  named_apart :
    ∀ k1 l1 k2 l2,
      propertyTypes s !! k1 = Some l1 → filterTypes s !! k2 = Some l2 → l1 ≠ l2
}.

(** The states a program can reach through the exported [Filter] and the
    decorators it returns, whatever the registry holds at each call. *)
Inductive reachable (FILTER_OPERATION_PREFIX : option string)
    (FILTER_DECORATOR_NAME_METADATA_KEY FILTER_DECORATOR_CUSTOM_FIELDS_METADATA_KEY : string)
    : State → Prop :=
| reachable_initial :
    reachable FILTER_OPERATION_PREFIX FILTER_DECORATOR_NAME_METADATA_KEY
      FILTER_DECORATOR_CUSTOM_FIELDS_METADATA_KEY initialState
| reachable_Filter storage baseEntity options s :
    reachable FILTER_OPERATION_PREFIX FILTER_DECORATOR_NAME_METADATA_KEY
      FILTER_DECORATOR_CUSTOM_FIELDS_METADATA_KEY s →
    reachable FILTER_OPERATION_PREFIX FILTER_DECORATOR_NAME_METADATA_KEY
      FILTER_DECORATOR_CUSTOM_FIELDS_METADATA_KEY
      (Filter FILTER_OPERATION_PREFIX FILTER_DECORATOR_NAME_METADATA_KEY
         FILTER_DECORATOR_CUSTOM_FIELDS_METADATA_KEY storage baseEntity options s).2
| reachable_decorator storage baseEntity options s0 decorator s1
    target propertyName paramIndex s :
    Filter FILTER_OPERATION_PREFIX FILTER_DECORATOR_NAME_METADATA_KEY
      FILTER_DECORATOR_CUSTOM_FIELDS_METADATA_KEY storage baseEntity options s0
      = (Normal decorator, s1) →
    reachable FILTER_OPERATION_PREFIX FILTER_DECORATOR_NAME_METADATA_KEY
      FILTER_DECORATOR_CUSTOM_FIELDS_METADATA_KEY s →
    reachable FILTER_OPERATION_PREFIX FILTER_DECORATOR_NAME_METADATA_KEY
      FILTER_DECORATOR_CUSTOM_FIELDS_METADATA_KEY
      (decorator target propertyName paramIndex s).2.

(** ** Sample declarations *)

Definition column (name : string) (t : GqlTypeReference) : FilterFieldDefinition.t :=
  {| FilterFieldDefinition.name := name;
     FilterFieldDefinition.typeFn := λ _, t;
     FilterFieldDefinition.options := Some ∅;
     FilterFieldDefinition.qlExp := None |}.

Definition plainEntity (name : string) (ident : nat) : BaseEntity.t :=
  {| BaseEntity.name := name; BaseEntity.ident := ident;
     BaseEntity.customFilterData := None; BaseEntity.__extension__ := None;
     BaseEntity.filterInputType := false; BaseEntity.getFields := λ _, [] |}.

(** Modelled from the spec: the decorator of [./filter.input-type] that declares
    custom filter fields, a file that is not part of the sources at hand.
    "An entity may declare custom filter fields as an ordered list of
    {name, valueTypeProducer, expression}; presence of this list bypasses
    normal field resolution entirely for that entity." The one declared list
    is what the reflected metadata holds and what [getFields] returns. *)
Definition customFilterEntity (name : string) (ident : nat)
    (fields : list FilterInputTypeFieldMetadata.t) : BaseEntity.t :=
  {| BaseEntity.name := name; BaseEntity.ident := ident;
     BaseEntity.customFilterData := Some fields; BaseEntity.__extension__ := None;
     BaseEntity.filterInputType := true; BaseEntity.getFields := λ _, fields |}.

Definition Task_title : FilterFieldDefinition.t := column "title" TString.
Definition Task_done : FilterFieldDefinition.t := column "done" TBoolean.
Definition A_x : FilterFieldDefinition.t := column "x" TString.
Definition B_x : FilterFieldDefinition.t := column "x" TInt.
Definition Node_label : FilterFieldDefinition.t := column "label" TString.
Definition Node_parent : FilterFieldDefinition.t := column "parent" (TClass 6).
Definition User_fullName : FilterInputTypeFieldMetadata.t :=
  {| FilterInputTypeFieldMetadata.name := "fullName";
     FilterInputTypeFieldMetadata.typeFn := λ _, TString;
     FilterInputTypeFieldMetadata.sqlExp := "concat(fname,' ',lname)" |}.

Definition Task : BaseEntity.t := plainEntity "Task" 1.
Definition entity_A : BaseEntity.t := plainEntity "A" 2.
Definition entity_B : BaseEntity.t := plainEntity "B" 3.
Definition entity_a : BaseEntity.t := plainEntity "a" 4.
Definition entity_aa : BaseEntity.t := plainEntity "aa" 5.
Definition Node : BaseEntity.t := plainEntity "Node" 6.
Definition Ghost : BaseEntity.t := plainEntity "Ghost" 7.
Definition User : BaseEntity.t := customFilterEntity "User" 8 [User_fullName].

Definition sampleMetadata : list (nat * ObjectTypeMetadata.t) :=
  [ (1, ObjectTypeMetadata.mk "Task" (Some [Task_title; Task_done]));
    (2, ObjectTypeMetadata.mk "A" (Some [A_x]));
    (3, ObjectTypeMetadata.mk "B" (Some [B_x]));
    (4, ObjectTypeMetadata.mk "a" (Some [column "id" TInt]));
    (5, ObjectTypeMetadata.mk "aa" (Some [column "id" TInt]));
    (6, ObjectTypeMetadata.mk "Node" (Some [Node_label; Node_parent]));
    (7, ObjectTypeMetadata.mk "Ghost" None) ].

Definition sampleStorage : TypeMetadataStorage :=
  {| getObjectTypeMetadataByTarget := λ t,
       match t with
       | TClass ident => snd <$> List.find (λ entry, Nat.eqb (fst entry) ident) sampleMetadata
       | _ => None
       end;
     getObjectTypesMetadata := map snd sampleMetadata;
     PartialType := λ _, Normal tt;
     loadClassPluginMetadata := λ _, Normal tt;
     compileClassMetadata := λ entry, Normal entry |}.

(** An entity that extends another, both declaring [x]. *)
Definition Base_x : FilterFieldDefinition.t := column "x" TString.
Definition Child_x : FilterFieldDefinition.t := column "x" TInt.
Definition Child : BaseEntity.t :=
  {| BaseEntity.name := "Child"; BaseEntity.ident := 11;
     BaseEntity.customFilterData := None; BaseEntity.__extension__ := Some "Base";
     BaseEntity.filterInputType := false; BaseEntity.getFields := λ _, [] |}.

Definition inheritanceStorage : TypeMetadataStorage :=
  {| getObjectTypeMetadataByTarget := λ t,
       match t with
       | TClass 10 => Some (ObjectTypeMetadata.mk "Base" (Some [Base_x]))
       | TClass 11 => Some (ObjectTypeMetadata.mk "Child" (Some [Child_x]))
       | _ => None
       end;
     getObjectTypesMetadata :=
       [ ObjectTypeMetadata.mk "Base" (Some [Base_x]);
         ObjectTypeMetadata.mk "Child" (Some [Child_x]) ];
     PartialType := λ _, Normal tt;
     loadClassPluginMetadata := λ _, Normal tt;
     compileClassMetadata := λ entry, Normal entry |}.

(** An entity whose name is a field name of [Task] followed by [Task]. *)
Definition titleTask : BaseEntity.t := customFilterEntity "titleTask" 9 [].

(** The state after [Filter(() => Task)], and after [Filter(() => titleTask)]
    on top of it. *)
Definition afterTask : State :=
  (Filter None "filter-name" "filter-custom-fields" sampleStorage (λ _, inl Task) None
     initialState).2.

Definition afterTitleTask : State :=
  (Filter None "filter-name" "filter-custom-fields" sampleStorage (λ _, inl titleTask) None
     afterTask).2.

(** Stand-ins for the two metadata keys of [./constants]. *)
Definition sampleNameKey : string := "filter-name".
Definition sampleCustomFieldsKey : string := "filter-custom-fields".

(** ** Basic facts about the store *)

Lemma alter_snoc {A} (f : A → A) (h : list A) (x : A) :
  alter f (length h) (h ++ [x]) = h ++ [f x].
Proof.
  replace (length h) with (length h + 0) by lia.
  by rewrite alter_app_r.
Qed.

Lemma lookup_snoc {A} (h : list A) (x : A) : (h ++ [x]) !! length h = Some x.
Proof. by rewrite lookup_app_r, Nat.sub_diag. Qed.

(** The class just put at the end of the store. *)
Ltac fresh_class := simpl; apply lookup_snoc.

Lemma set_heap_set_heap f g s :
  set_heap f (set_heap g s) = set_heap (λ h, f (g h)) s.
Proof. reflexivity. Qed.

Lemma set_heap_ext f g s : f (heap s) = g (heap s) → set_heap f s = set_heap g s.
Proof. unfold set_heap. by intros ->. Qed.

Lemma appendFields_nil c : appendFields [] c = c.
Proof. destruct c. unfold appendFields. simpl. by rewrite app_nil_r. Qed.

Lemma appendFields_cons r rs c :
  appendFields rs (appendField r c) = appendFields (r :: rs) c.
Proof. unfold appendFields, appendField. simpl. by rewrite <- app_assoc. Qed.

(** One step of a computation at a time. *)
Lemma bind_gets {A B} (f : State → A) (k : A → M B) s : (gets f ≫= k) s = k (f s) s.
Proof. reflexivity. Qed.

Lemma bind_modify {B} (f : State → State) (k : unit → M B) s :
  (modify f ≫= k) s = k tt (f s).
Proof. reflexivity. Qed.

Lemma bind_newClass {B} name super (k : loc → M B) s :
  (newClass name super ≫= k) s
    = k (length (heap s))
        (set_heap (λ h, h ++ [{| className := name; superClass := super;
                                 inputType := None; classFields := [] |}]) s).
Proof. reflexivity. Qed.

Lemma bind_Field {B} typeFunc opts cls key (k : unit → M B) s :
  (Field typeFunc opts cls key ≫= k) s
    = k tt (set_heap (alter (appendField
              {| propertyKey := key; returnTypeFunc := typeFunc;
                 fieldOptions := opts |}) cls) s).
Proof. reflexivity. Qed.

Lemma bind_Normal {A B} (m : M A) (k : A → M B) s a s' :
  m s = (Normal a, s') → (m ≫= k) s = k a s'.
Proof. unfold mbind, M_bind. by intros ->. Qed.

Lemma bind_Throw {A B} (m : M A) (k : A → M B) s e s' :
  m s = (Throw e, s') → (m ≫= k) s = (Throw e, s').
Proof. unfold mbind, M_bind. by intros ->. Qed.

(** A run of [Field] applications on one class. *)
Lemma forOf_Field {A} (l : list A) (mk : A → FieldMetadata) cls s :
  forOf l (λ x, Field (returnTypeFunc (mk x)) (fieldOptions (mk x)) cls
                      (propertyKey (mk x))) s
    = (Normal tt, set_heap (alter (appendFields (map mk l)) cls) s).
Proof.
  revert s. induction l as [|x l IH]; intros s.
  - simpl. unfold mret, M_ret. f_equal. destruct s. unfold set_heap. simpl.
    f_equal. symmetry. apply list_alter_id. apply appendFields_nil.
  - simpl. rewrite bind_Field, IH. f_equal.
    rewrite set_heap_set_heap. apply set_heap_ext.
    simpl. rewrite list_alter_alter_eq. apply list_alter_ext; [|done].
    intros c _. simpl. rewrite <- appendFields_cons. by destruct (mk x).
Qed.

Lemma string_length_app (s t : string) :
  String.length (s +:+ t) = String.length s + String.length t.
Proof.
  induction s as [|a s IH]; [done|].
  change (String a s +:+ t) with (String a (s +:+ t)). simpl. by rewrite IH.
Qed.

Lemma string_app_inv_tail (s1 s2 t : string) : s1 +:+ t = s2 +:+ t → s1 = s2.
Proof.
  revert s2. induction s1 as [|a s1 IH]; intros [|b s2] Heq; [done|..].
  - apply (f_equal String.length) in Heq.
    change (String b s2 +:+ t) with (String b (s2 +:+ t)) in Heq.
    change ("" +:+ t) with t in Heq. simpl in Heq.
    rewrite string_length_app in Heq. lia.
  - apply (f_equal String.length) in Heq.
    change (String a s1 +:+ t) with (String a (s1 +:+ t)) in Heq.
    change ("" +:+ t) with t in Heq. simpl in Heq.
    rewrite string_length_app in Heq. lia.
  - change (String a s1 +:+ t) with (String a (s1 +:+ t)) in Heq.
    change (String b s2 +:+ t) with (String b (s2 +:+ t)) in Heq.
    injection Heq as -> Heq. f_equal. by apply IH.
Qed.

Lemma propertyTypeKey_inj (n1 n2 parentName : string) :
  propertyTypeKey n1 parentName = propertyTypeKey n2 parentName → n1 = n2.
Proof. unfold propertyTypeKey. apply string_app_inv_tail. Qed.

Section GeneratorFacts.

Variable FILTER_OPERATION_PREFIX : option string.
Variable FILTER_DECORATOR_NAME_METADATA_KEY : string.
Variable FILTER_DECORATOR_CUSTOM_FIELDS_METADATA_KEY : string.
Variable storage : TypeMetadataStorage.

Lemma generateFilterPropertyType_hit field parentName s cached :
  propertyTypes s !! propertyTypeKey (FilterFieldDefinition.name field) parentName
    = Some cached →
  generateFilterPropertyType FILTER_OPERATION_PREFIX field parentName s
    = (Normal cached, s).
Proof.
  intros Hhit. unfold generateFilterPropertyType, mbind, M_bind, gets.
  by rewrite Hhit.
Qed.

Lemma generateFilterPropertyType_miss field parentName s :
  propertyTypes s !! propertyTypeKey (FilterFieldDefinition.name field) parentName
    = None →
  generateFilterPropertyType FILTER_OPERATION_PREFIX field parentName s
    = (Normal (length (heap s)),
       set_propertyTypes
         <[propertyTypeKey (FilterFieldDefinition.name field) parentName
             := length (heap s)]>
         (set_heap (λ h, h ++ [propertyFilterClass FILTER_OPERATION_PREFIX field parentName]) s)).
Proof.
  intros Hmiss. unfold generateFilterPropertyType.
  rewrite bind_gets, Hmiss, bind_newClass.
  unfold InputType at 1. rewrite bind_modify.
  rewrite (bind_Normal _ _ _ tt _
             (forOf_Field Object_keys_OperationQuery
                (operationField FILTER_OPERATION_PREFIX field) _ _)).
  unfold defineName. rewrite !bind_modify. unfold mret, M_ret. f_equal.
  rewrite !set_heap_set_heap. f_equal. apply set_heap_ext.
  by rewrite !alter_snoc.
Qed.

(** The first loop, seen through its accumulator. *)
Lemma collectProperties_acc classes properties :
  collectProperties storage classes properties
    = match collectProperties storage classes [] with
      | Normal found => Normal (properties ++ found)
      | Throw e => Throw e
      end.
Proof.
  revert properties. induction classes as [|typeFn classes IH]; intros properties.
  - simpl. by rewrite app_nil_r.
  - simpl. destruct (BaseEntity.customFilterData typeFn) as [fields|].
    + rewrite (IH (properties ++ _)), (IH (map _ _)).
      destruct (collectProperties storage classes []); [|done].
      by rewrite app_assoc.
    + destruct (registryProperties storage typeFn) as [own|e]; [|done].
      rewrite (IH (properties ++ own)), (IH own).
      destruct (collectProperties storage classes []); [|done].
      by rewrite app_assoc.
Qed.

Lemma collectProperties_app classes1 classes2 :
  collectProperties storage (classes1 ++ classes2) []
    = match collectProperties storage classes1 [] with
      | Normal found => collectProperties storage classes2 found
      | Throw e => Throw e
      end.
Proof.
  generalize (@nil FilterFieldDefinition.t) as properties.
  induction classes1 as [|typeFn classes1 IH]; intros properties; [done|].
  simpl. destruct (BaseEntity.customFilterData typeFn) as [fields|]; [apply IH|].
  destruct (registryProperties storage typeFn) as [own|e]; [apply IH|done].
Qed.

Lemma addFilterField_eq PartialObjectType parentName field s :
  addFilterField FILTER_OPERATION_PREFIX storage PartialObjectType parentName field s
    = (Normal tt,
       addFilterField_state FILTER_OPERATION_PREFIX storage PartialObjectType
         parentName s field).
Proof.
  unfold addFilterField, addFilterField_state, isRelation.
  destruct (getObjectTypeMetadataByTarget storage _) as [meta|]; [done|].
  unfold mbind, M_bind.
  destruct (propertyTypes s !! _) as [cached|] eqn:Hlookup.
  - by rewrite (generateFilterPropertyType_hit _ _ _ cached).
  - by rewrite generateFilterPropertyType_miss.
Qed.

Lemma forOf_addFilterField PartialObjectType parentName fields s :
  forOf fields (addFilterField FILTER_OPERATION_PREFIX storage PartialObjectType parentName) s
    = (Normal tt,
       foldl (addFilterField_state FILTER_OPERATION_PREFIX storage PartialObjectType
                parentName) s fields).
Proof.
  revert s. induction fields as [|field fields IH]; intros s; [done|].
  simpl. unfold mbind, M_bind. rewrite addFilterField_eq. apply IH.
Qed.

Lemma generateFilterInputType_hit classes s found :
  filterTypes s !! filterTypeKey classes = Some found →
  generateFilterInputType FILTER_OPERATION_PREFIX storage classes s = (Normal found, s).
Proof.
  intros Hhit. unfold generateFilterInputType, mbind, M_bind, gets.
  fold (filterTypeKey classes). by rewrite Hhit.
Qed.

Lemma generateFilterInputType_miss classes s :
  filterTypes s !! filterTypeKey classes = None →
  generateFilterInputType FILTER_OPERATION_PREFIX storage classes s
    = match collectProperties storage classes [] with
      | Normal properties =>
          (Normal (length (heap s)),
           foldl (addFilterField_state FILTER_OPERATION_PREFIX storage
                    (length (heap s)) (concatClassNames classes))
                 (placeholderState (filterTypeKey classes) s) properties)
      | Throw e => (Throw e, placeholderState (filterTypeKey classes) s)
      end.
Proof.
  intros Hmiss. unfold generateFilterInputType.
  fold (filterTypeKey classes).
  rewrite bind_gets, Hmiss, bind_newClass.
  unfold InputType, defineName. rewrite !bind_modify.
  lazymatch goal with
  | |- (_ ≫= _) ?st = _ =>
      replace st with (placeholderState (filterTypeKey classes) s)
  end.
  2:{ unfold placeholderState. rewrite !set_heap_set_heap. f_equal.
      apply set_heap_ext. by rewrite !alter_snoc. }
  unfold liftCompletion.
  destruct (collectProperties storage classes []) as [properties|e].
  - rewrite (bind_Normal _ _ _ properties (placeholderState (filterTypeKey classes) s))
      by done.
    by rewrite (bind_Normal _ _ _ tt _ (forOf_addFilterField _ _ _ _)).
  - by rewrite (bind_Throw _ _ _ e (placeholderState (filterTypeKey classes) s)).
Qed.

(** *** The second loop, one turn at a time *)

Section Loop.

Variable PartialObjectType : loc.
Variable parentName : string.

Let step := addFilterField_state FILTER_OPERATION_PREFIX storage PartialObjectType parentName.
Let keyOf (field : FilterFieldDefinition.t) :=
  propertyTypeKey (FilterFieldDefinition.name field) parentName.

Lemma step_relation s field : isRelation storage field = true → step s field = s.
Proof. intros Hrel. unfold step, addFilterField_state. by rewrite Hrel. Qed.

Lemma step_caches s field :
  filterTypes (step s field) = filterTypes s
  ∧ filterFullTypes (step s field) = filterFullTypes s
  ∧ reflectMetadata (step s field) = reflectMetadata s
  ∧ argsMetadata (step s field) = argsMetadata s.
Proof.
  unfold step, addFilterField_state.
  destruct (isRelation storage field); [done|].
  by destruct (propertyTypes s !! _).
Qed.

Lemma step_heap_length s field :
  (length (heap s) ≤ length (heap (step s field)))%nat.
Proof.
  unfold step, addFilterField_state.
  destruct (isRelation storage field); [done|].
  destruct (propertyTypes s !! _); simpl; rewrite length_alter; [done|].
  rewrite length_app. lia.
Qed.

Lemma step_heap_other s field l o :
  l ≠ PartialObjectType → heap s !! l = Some o → heap (step s field) !! l = Some o.
Proof.
  intros Hne Hl. unfold step, addFilterField_state.
  destruct (isRelation storage field); [done|].
  destruct (propertyTypes s !! _); simpl;
    (rewrite list_lookup_alter_ne; [|done]); [done|].
  by apply lookup_app_l_Some.
Qed.

Lemma step_propertyTypes_mono s field k l :
  propertyTypes s !! k = Some l → propertyTypes (step s field) !! k = Some l.
Proof.
  intros Hk. unfold step, addFilterField_state.
  destruct (isRelation storage field); [done|].
  destruct (propertyTypes s !! propertyTypeKey _ _) eqn:Hkey; simpl; [done|].
  rewrite lookup_insert_ne; [done|]. intros <-. congruence.
Qed.

Lemma step_propertyTypes_other s field k :
  k ≠ keyOf field → propertyTypes (step s field) !! k = propertyTypes s !! k.
Proof.
  intros Hne. unfold step, addFilterField_state.
  destruct (isRelation storage field); [done|].
  destruct (propertyTypes s !! propertyTypeKey _ _) eqn:Hkey; simpl; [done|].
  by rewrite lookup_insert_ne.
Qed.

Lemma step_fresh s field :
  PartialObjectType < length (heap s) →
  isRelation storage field = false →
  propertyTypes s !! keyOf field = None →
  propertyTypes (step s field) !! keyOf field = Some (length (heap s))
  ∧ heap (step s field) !! length (heap s)
      = Some (propertyFilterClass FILTER_OPERATION_PREFIX field parentName).
Proof.
  intros Hlt Hrel Hmiss. unfold step, addFilterField_state, keyOf in *.
  rewrite Hrel, Hmiss. simpl. split; [by rewrite lookup_insert_eq|].
  rewrite list_lookup_alter_ne; [|lia].
  apply lookup_snoc.
Qed.

Lemma step_target s field cls :
  heap s !! PartialObjectType = Some cls →
  isRelation storage field = false →
  ∃ fieldType,
    propertyTypes (step s field) !! keyOf field = Some fieldType
    ∧ heap (step s field) !! PartialObjectType
        = Some (appendField (filterField field fieldType) cls).
Proof.
  intros Hcls Hrel. unfold step, addFilterField_state, keyOf in *. rewrite Hrel.
  destruct (propertyTypes s !! propertyTypeKey _ _) as [cached|] eqn:Hkey; simpl.
  - exists cached. split; [done|]. by rewrite list_lookup_alter_eq, Hcls.
  - exists (length (heap s)). split; [by rewrite lookup_insert_eq|].
    rewrite list_lookup_alter_eq.
    by rewrite (lookup_app_l_Some _ _ _ _ Hcls).
Qed.

(** The whole loop. *)

Lemma loop_caches fields s :
  filterTypes (foldl step s fields) = filterTypes s
  ∧ filterFullTypes (foldl step s fields) = filterFullTypes s
  ∧ reflectMetadata (foldl step s fields) = reflectMetadata s
  ∧ argsMetadata (foldl step s fields) = argsMetadata s.
Proof.
  revert s. induction fields as [|field fields IH]; intros s; [done|].
  simpl. destruct (IH (step s field)) as (-> & -> & -> & ->). apply step_caches.
Qed.

Lemma loop_heap_length fields s :
  (length (heap s) ≤ length (heap (foldl step s fields)))%nat.
Proof.
  revert s. induction fields as [|field fields IH]; intros s; [done|].
  simpl. etrans; [apply (step_heap_length s field)|apply IH].
Qed.

Lemma loop_heap_other fields s l o :
  l ≠ PartialObjectType → heap s !! l = Some o →
  heap (foldl step s fields) !! l = Some o.
Proof.
  intros Hne. revert s. induction fields as [|field fields IH]; intros s Hl; [done|].
  simpl. apply IH. by apply step_heap_other.
Qed.

Lemma loop_propertyTypes_mono fields s k l :
  propertyTypes s !! k = Some l → propertyTypes (foldl step s fields) !! k = Some l.
Proof.
  revert s. induction fields as [|field fields IH]; intros s Hk; [done|].
  simpl. apply IH. by apply step_propertyTypes_mono.
Qed.

Lemma loop_fields fields s cls :
  heap s !! PartialObjectType = Some cls →
  ∃ regs,
    heap (foldl step s fields) !! PartialObjectType = Some (appendFields regs cls)
    ∧ Forall2
        (λ field r, ∃ fieldType,
           propertyTypes (foldl step s fields) !! keyOf field = Some fieldType
           ∧ r = filterField field fieldType)
        (filter (λ field, isRelation storage field = false) fields) regs.
Proof.
  revert s cls. induction fields as [|field fields IH]; intros s cls Hcls.
  - exists []. split; [|constructor].
    simpl. rewrite Hcls. f_equal. destruct cls. unfold appendFields. simpl.
    by rewrite app_nil_r.
  - simpl. destruct (isRelation storage field) eqn:Hrel.
    + rewrite step_relation by done.
      rewrite filter_cons_False by congruence. by apply IH.
    + destruct (step_target s field cls Hcls Hrel) as (fieldType & Hkey & Hcls').
      destruct (IH _ _ Hcls') as (regs & Hfinal & Hregs).
      exists (filterField field fieldType :: regs). split.
      * rewrite Hfinal. f_equal. unfold appendFields, appendField. simpl.
        by rewrite <- app_assoc.
      * rewrite filter_cons_True by done. constructor; [|done].
        exists fieldType. split; [|done]. by apply loop_propertyTypes_mono.
Qed.

Lemma loop_skips fields s x :
  Forall (λ field, isRelation storage field = true
                   ∨ FilterFieldDefinition.name field ≠ x) fields →
  propertyTypes (foldl step s fields) !! propertyTypeKey x parentName
    = propertyTypes s !! propertyTypeKey x parentName.
Proof.
  intros Hall. revert s. induction Hall as [|field fields Hfield _ IH]; intros s; [done|].
  simpl. rewrite IH. destruct Hfield as [Hrel|Hname].
  - by rewrite step_relation.
  - apply step_propertyTypes_other. unfold keyOf. intros Heq.
    by apply propertyTypeKey_inj in Heq.
Qed.

(** The first declaration of a name that reaches the field generator decides
    the predicate type of that name. *)
Lemma loop_first_wins pre first post s :
  PartialObjectType < length (heap s) →
  propertyTypes s !! keyOf first = None →
  Forall (λ field, isRelation storage field = true
                   ∨ FilterFieldDefinition.name field
                       ≠ FilterFieldDefinition.name first) pre →
  isRelation storage first = false →
  ∃ fieldType,
    propertyTypes (foldl step s (pre ++ first :: post)) !! keyOf first = Some fieldType
    ∧ heap (foldl step s (pre ++ first :: post)) !! fieldType
        = Some (propertyFilterClass FILTER_OPERATION_PREFIX first parentName)
    ∧ PartialObjectType < fieldType.
Proof.
  intros Hlt Hmiss Hpre Hrel. rewrite foldl_app. simpl.
  set (s1 := foldl step s pre).
  assert (Hlt1 : PartialObjectType < length (heap s1)).
  { eapply Nat.lt_le_trans; [done|apply loop_heap_length]. }
  assert (Hmiss1 : propertyTypes s1 !! keyOf first = None).
  { unfold s1, keyOf. by rewrite loop_skips. }
  destruct (step_fresh s1 first Hlt1 Hrel Hmiss1) as [Hkey Hobj].
  exists (length (heap s1)). split; [|split; [|done]].
  - by apply loop_propertyTypes_mono.
  - apply loop_heap_other; [lia|done].
Qed.

End Loop.

(** *** The invariant of the entity-filter cache *)

Lemma wf_initialState : wf initialState.
Proof. split; intros *; simpl; by rewrite lookup_empty. Qed.

Lemma wf_placeholderState key s :
  wf s → filterTypes s !! key = None → wf (placeholderState key s).
Proof.
  intros [Hbound Hinj] Hmiss. split; simpl.
  - intros k l. rewrite length_app. simpl. rewrite lookup_insert.
    case_decide; [intros [= <-]; lia|]. intros Hk%Hbound. lia.
  - intros k1 k2 l. rewrite !lookup_insert.
    repeat case_decide; subst; try done.
    + intros [= <-] Hk%Hbound. lia.
    + intros Hk%Hbound [= <-]. lia.
    + apply Hinj.
Qed.

Lemma wf_loop PartialObjectType parentName fields s :
  wf s →
  wf (foldl (addFilterField_state FILTER_OPERATION_PREFIX storage PartialObjectType
               parentName) s fields).
Proof.
  intros [Hbound Hinj].
  destruct (loop_caches PartialObjectType parentName fields s) as (Hft & _).
  split; rewrite Hft; [|done].
  intros k l Hk%Hbound.
  eapply Nat.lt_le_trans; [done|apply loop_heap_length].
Qed.

Lemma wf_generateFilterInputType classes s :
  wf s → wf (generateFilterInputType FILTER_OPERATION_PREFIX storage classes s).2.
Proof.
  intros Hwf.
  destruct (filterTypes s !! filterTypeKey classes) as [found|] eqn:Hlookup.
  - by rewrite (generateFilterInputType_hit _ _ found).
  - rewrite generateFilterInputType_miss by done.
    destruct (collectProperties storage classes []); simpl.
    + by apply wf_loop, wf_placeholderState.
    + by apply wf_placeholderState.
Qed.

Lemma getFilterFullInputType_hit classes s found :
  filterFullTypes s !! fullTypeKey classes = Some found →
  getFilterFullInputType FILTER_OPERATION_PREFIX FILTER_DECORATOR_NAME_METADATA_KEY
    storage classes s = (Normal found, s).
Proof.
  intros Hhit. unfold getFilterFullInputType, mbind, M_bind, gets.
  by rewrite Hhit.
Qed.

Lemma getFilterFullInputType_miss classes s :
  filterFullTypes s !! fullTypeKey classes = None →
  getFilterFullInputType FILTER_OPERATION_PREFIX FILTER_DECORATOR_NAME_METADATA_KEY
    storage classes s
    = match generateFilterInputType FILTER_OPERATION_PREFIX storage classes s with
      | (Normal FilterInputType, s1) =>
          (Normal (length (heap s1)),
           set_filterFullTypes <[fullTypeKey classes := length (heap s1)]>
             (set_heap (λ h, h ++ [entityWhereInputClass FILTER_DECORATOR_NAME_METADATA_KEY
                                     (fullTypeKey classes) FilterInputType]) s1))
      | (Throw e, s1) => (Throw e, s1)
      end.
Proof.
  intros Hmiss. unfold getFilterFullInputType.
  rewrite bind_gets, Hmiss.
  destruct (generateFilterInputType _ _ classes s) as [[FilterInputType|e] s1] eqn:Hgen.
  - rewrite (bind_Normal _ _ _ FilterInputType s1) by done.
    rewrite bind_newClass. unfold Field, InputType. rewrite !bind_modify.
    unfold mret, M_ret. f_equal.
    rewrite !set_heap_set_heap. f_equal. apply set_heap_ext.
    by rewrite !alter_snoc.
  - by rewrite (bind_Throw _ _ _ e s1).
Qed.

Lemma wf_grow s s' :
  wf s → filterTypes s' = filterTypes s →
  (length (heap s) ≤ length (heap s'))%nat → wf s'.
Proof.
  intros [Hbound Hinj] Hsame Hlen. split; rewrite Hsame; [|done].
  intros k l Hk%Hbound. lia.
Qed.

Lemma wf_getFilterFullInputType classes s :
  wf s →
  wf (getFilterFullInputType FILTER_OPERATION_PREFIX FILTER_DECORATOR_NAME_METADATA_KEY
        storage classes s).2.
Proof.
  intros Hwf.
  destruct (filterFullTypes s !! fullTypeKey classes) as [found|] eqn:Hlookup.
  - by rewrite (getFilterFullInputType_hit _ _ found).
  - rewrite getFilterFullInputType_miss by done.
    pose proof (wf_generateFilterInputType classes s Hwf) as Hgen.
    destruct (generateFilterInputType _ _ classes s) as [[FilterInputType|e] s1]; [|done].
    simpl in *. eapply wf_grow; [exact Hgen|done|].
    simpl. rewrite length_app. lia.
Qed.

(** Every state the exported [Filter] and its decorators can leave keeps the
    invariant. *)
Lemma wf_Filter baseEntity options s :
  wf s →
  wf (Filter FILTER_OPERATION_PREFIX FILTER_DECORATOR_NAME_METADATA_KEY
        FILTER_DECORATOR_CUSTOM_FIELDS_METADATA_KEY storage baseEntity options s).2.
Proof.
  intros Hwf. unfold Filter.
  set (typeFunctions := match baseEntity tt with inl single => [single] | inr several => several end).
  pose proof (wf_getFilterFullInputType typeFunctions s Hwf) as Hroot.
  unfold mbind, M_bind.
  by destruct (getFilterFullInputType _ _ _ typeFunctions s) as [[root|e] s1].
Qed.

Lemma wf_decorator baseEntity options s decorator s1 target propertyName paramIndex s' :
  Filter FILTER_OPERATION_PREFIX FILTER_DECORATOR_NAME_METADATA_KEY
    FILTER_DECORATOR_CUSTOM_FIELDS_METADATA_KEY storage baseEntity options s
    = (Normal decorator, s1) →
  wf s' → wf (decorator target propertyName paramIndex s').2.
Proof.
  unfold Filter, mbind at 1, M_bind at 1.
  destruct (getFilterFullInputType _ _ _ _ s) as [[root|e] s2]; [|done].
  intros [= <- <-] Hwf. by eapply wf_grow.
Qed.

End GeneratorFacts.

(** ** The operation catalog and the field predicate type *)

Section Properties.

Variable FILTER_OPERATION_PREFIX : option string.
Variable FILTER_DECORATOR_NAME_METADATA_KEY : string.
Variable FILTER_DECORATOR_CUSTOM_FIELDS_METADATA_KEY : string.
Variable storage : TypeMetadataStorage.

(** The type each operation attribute gets, operation by operation. *)
Lemma operationReturnType_arityRule field op :
  operationReturnType field op tt = arityRule op (FilterFieldDefinition.typeFn field tt).
Proof. by destruct op. Qed.

Lemma operationField_nullable field op :
  fieldOptions (operationField FILTER_OPERATION_PREFIX field op) !! "nullable"
    = Some (JBoolean true).
Proof. simpl. unfold operationFieldOptions. by rewrite lookup_insert_eq. Qed.

(** C10. The cache key of a field predicate type is made of the field name and
    the group key only. When two declarations share a name, the generator run
    for the second one under the same group key returns the class that was
    built from the first one's type function, and leaves the store as it is,
    whatever the second one's type function yields. *)
Theorem generateFilterPropertyType_first_declaration_kept
    (first second : FilterFieldDefinition.t) (parentName : string) (s : State) :
  FilterFieldDefinition.name first = FilterFieldDefinition.name second →
  propertyTypes s !! propertyTypeKey (FilterFieldDefinition.name first) parentName = None →
  ∃ cls s1,
    generateFilterPropertyType FILTER_OPERATION_PREFIX first parentName s = (Normal cls, s1)
    ∧ heap s1 !! cls = Some (propertyFilterClass FILTER_OPERATION_PREFIX first parentName)
    ∧ generateFilterPropertyType FILTER_OPERATION_PREFIX second parentName s1
        = (Normal cls, s1).
Proof.
  intros Hname Hmiss. eexists _, _. split; [by apply generateFilterPropertyType_miss|].
  split.
  - fresh_class.
  - apply generateFilterPropertyType_hit. rewrite <- Hname. simpl.
    by rewrite lookup_insert_eq.
Qed.

(** ** The entity filter type *)

Lemma filterTypeKey_names again classes :
  map BaseEntity.name again = map BaseEntity.name classes →
  filterTypeKey again = filterTypeKey classes.
Proof. unfold filterTypeKey, concatClassNames. by intros ->. Qed.

Lemma filterTypeKey_concat other classes :
  filterTypeKey other = filterTypeKey classes →
  concatClassNames other = concatClassNames classes.
Proof. unfold filterTypeKey. apply string_app_inv_tail. Qed.

Lemma generateFilterInputType_cached classes s cls s1 :
  generateFilterInputType FILTER_OPERATION_PREFIX storage classes s = (Normal cls, s1) →
  filterTypes s1 !! filterTypeKey classes = Some cls.
Proof.
  destruct (filterTypes s !! filterTypeKey classes) as [found|] eqn:Hlookup.
  - rewrite (generateFilterInputType_hit _ _ _ _ found) by done. by intros [= <- <-].
  - rewrite generateFilterInputType_miss by done.
    destruct (collectProperties storage classes []); [|done].
    intros [= <- <-].
    destruct (loop_caches FILTER_OPERATION_PREFIX storage (length (heap s))
                (concatClassNames classes) a
                (placeholderState (filterTypeKey classes) s)) as (-> & _).
    simpl. by rewrite lookup_insert_eq.
Qed.

(** C2, amended. After a call that returned a class, a call with a list of the
    same names in the same order returns that very class and changes nothing
    (whatever the registry says by then). A list whose concatenated names
    differ is another cache group and yields another class. *)
Theorem generateFilterInputType_memoized_by_concatenation
    (storage' : TypeMetadataStorage) (classes : list BaseEntity.t)
    (s : State) (cls : loc) (s1 : State) :
  wf s →
  generateFilterInputType FILTER_OPERATION_PREFIX storage classes s = (Normal cls, s1) →
  (∀ again,
     map BaseEntity.name again = map BaseEntity.name classes →
     generateFilterInputType FILTER_OPERATION_PREFIX storage' again s1 = (Normal cls, s1))
  ∧ (∀ other cls' s2,
       concatClassNames other ≠ concatClassNames classes →
       generateFilterInputType FILTER_OPERATION_PREFIX storage' other s1 = (Normal cls', s2) →
       cls' ≠ cls).
Proof.
  intros Hwf Hgen.
  pose proof (generateFilterInputType_cached _ _ _ _ Hgen) as Hcached.
  assert (Hwf1 : wf s1).
  { pose proof (wf_generateFilterInputType FILTER_OPERATION_PREFIX storage classes s Hwf)
      as Hw. by rewrite Hgen in Hw. }
  split.
  - intros again Hnames. apply generateFilterInputType_hit.
    by rewrite (filterTypeKey_names _ _ Hnames).
  - intros other cls' s2 Hne Hgen2 ->.
    destruct (filterTypes s1 !! filterTypeKey other) as [found|] eqn:Hlookup.
    + rewrite (generateFilterInputType_hit _ _ _ _ found) in Hgen2 by done.
      injection Hgen2 as -> _.
      apply Hne, filterTypeKey_concat.
      by apply (wf_filterTypes_inj _ Hwf1 _ _ cls).
    + rewrite generateFilterInputType_miss in Hgen2 by done.
      destruct (collectProperties storage' other []); [|done].
      injection Hgen2 as Hcls _.
      pose proof (wf_filterTypes_bound _ Hwf1 _ _ Hcached). lia.
Qed.

(** C3. On a cache miss the empty class is put in the store and cached under
    the group key first; the fields are resolved from that state on. At every
    point of the field loop a call for the same group key returns the cached
    class and changes nothing, and the call itself always comes to an end:
    with a class when every entity resolves, with the error otherwise. *)
Theorem generateFilterInputType_placeholder_first
    (classes : list BaseEntity.t) (s : State) :
  filterTypes s !! filterTypeKey classes = None →
  let placeholder := length (heap s) in
  let s0 := placeholderState (filterTypeKey classes) s in
  let loopBody :=
    addFilterField FILTER_OPERATION_PREFIX storage placeholder (concatClassNames classes) in
  generateFilterInputType FILTER_OPERATION_PREFIX storage classes s
    = (properties ← liftCompletion (collectProperties storage classes []);
       forOf properties loopBody;;
       mret placeholder) s0
  ∧ filterTypes s0 !! filterTypeKey classes = Some placeholder
  ∧ heap s0 !! placeholder = Some (placeholderClass (filterTypeKey classes))
  ∧ classFields (placeholderClass (filterTypeKey classes)) = []
  ∧ (∀ resolved : list FilterFieldDefinition.t,
       ∃ mid,
         forOf resolved loopBody s0 = (Normal tt, mid)
         ∧ ∀ storage' again,
             filterTypeKey again = filterTypeKey classes →
             generateFilterInputType FILTER_OPERATION_PREFIX storage' again mid
               = (Normal placeholder, mid))
  ∧ (∃ outcome s1,
       generateFilterInputType FILTER_OPERATION_PREFIX storage classes s = (outcome, s1)
       ∧ match collectProperties storage classes [] with
         | Normal _ => outcome = Normal placeholder
         | Throw e => outcome = Throw e
         end).
Proof.
  intros Hmiss placeholder s0 loopBody.
  assert (Hcached : filterTypes s0 !! filterTypeKey classes = Some placeholder).
  { simpl. by rewrite lookup_insert_eq. }
  split; [|split; [done|split; [|split; [done|split]]]].
  - subst loopBody. rewrite generateFilterInputType_miss by done.
    unfold liftCompletion.
    destruct (collectProperties storage classes []) as [properties|e].
    + rewrite (bind_Normal _ _ _ properties s0) by done.
      by rewrite (bind_Normal _ _ _ tt _ (forOf_addFilterField _ _ _ _ _ _)).
    + by rewrite (bind_Throw _ _ _ e s0).
  - fresh_class.
  - intros resolved. eexists. split; [apply forOf_addFilterField|].
    intros storage' again Hkey. apply generateFilterInputType_hit.
    destruct (loop_caches FILTER_OPERATION_PREFIX storage placeholder
                (concatClassNames classes) resolved s0) as (-> & _).
    by rewrite Hkey.
  - rewrite generateFilterInputType_miss by done.
    destruct (collectProperties storage classes []); by eexists _, _.
Qed.

(** C4, amended. When [A] and [B] both declare a field named [x] that is not
    relation-valued, every attribute named [x] of the type generated for
    [A, B] carries one and the same field predicate type, and that type is the
    one built from the declaration of [A], the earlier entity. *)
Theorem generateFilterInputType_merge_first_wins
    (A B : BaseEntity.t) (s : State)
    (propsA propsB pre post : list FilterFieldDefinition.t)
    (fieldA fieldB : FilterFieldDefinition.t) :
  filterTypes s !! filterTypeKey [A; B] = None →
  collectProperties storage [A] [] = Normal propsA →
  collectProperties storage [B] [] = Normal propsB →
  propsA = pre ++ fieldA :: post →
  Forall (λ field, isRelation storage field = true
                   ∨ FilterFieldDefinition.name field ≠ FilterFieldDefinition.name fieldA)
         pre →
  isRelation storage fieldA = false →
  fieldB ∈ propsB →
  FilterFieldDefinition.name fieldB = FilterFieldDefinition.name fieldA →
  propertyTypes s
    !! propertyTypeKey (FilterFieldDefinition.name fieldA) (concatClassNames [A; B]) = None →
  ∃ cls s1 c fieldType,
    generateFilterInputType FILTER_OPERATION_PREFIX storage [A; B] s = (Normal cls, s1)
    ∧ heap s1 !! cls = Some c
    ∧ heap s1 !! fieldType
        = Some (propertyFilterClass FILTER_OPERATION_PREFIX fieldA (concatClassNames [A; B]))
    ∧ filterField fieldA fieldType ∈ classFields c
    ∧ ∀ r, r ∈ classFields c →
           propertyKey r = FilterFieldDefinition.name fieldB →
           r = filterField fieldA fieldType.
Proof.
  intros Hmiss HA HB -> Hpre HrelA HinB Hname Hfresh.
  set (parentName := concatClassNames [A; B]) in *.
  set (s0 := placeholderState (filterTypeKey [A; B]) s).
  assert (Hprops : collectProperties storage [A; B] []
                   = Normal (pre ++ fieldA :: (post ++ propsB))).
  { change [A; B] with ([A] ++ [B]). rewrite collectProperties_app, HA.
    rewrite collectProperties_acc, HB. by rewrite <- app_assoc. }
  assert (Hplace : heap s0 !! length (heap s) = Some (placeholderClass (filterTypeKey [A; B]))).
  { fresh_class. }
  assert (Hlt : length (heap s) < length (heap s0)).
  { simpl. rewrite length_app. simpl. lia. }
  destruct (loop_first_wins FILTER_OPERATION_PREFIX storage (length (heap s)) parentName
              pre fieldA (post ++ propsB) s0 Hlt Hfresh Hpre HrelA)
    as (fieldType & Hkey & Hobj & _).
  destruct (loop_fields FILTER_OPERATION_PREFIX storage (length (heap s)) parentName
              (pre ++ fieldA :: (post ++ propsB)) s0 _ Hplace)
    as (regs & Hfinal & Hregs).
  eexists _, _, _, fieldType. split; [|split; [exact Hfinal|split; [exact Hobj|split]]].
  - rewrite generateFilterInputType_miss by done. by rewrite Hprops.
  - simpl.
    assert (Hin : fieldA ∈ filter (λ field, isRelation storage field = false)
                               (pre ++ fieldA :: (post ++ propsB))).
    { apply list_elem_of_filter. split; [done|]. set_solver. }
    apply list_elem_of_lookup in Hin as [i Hi].
    destruct (Forall2_lookup_l _ _ _ _ _ Hregs Hi) as (r & Hr & l & Hl & ->).
    rewrite Hkey in Hl. injection Hl as <-.
    by apply list_elem_of_lookup_2 in Hr.
  - simpl. intros r [i Hi]%list_elem_of_lookup Hr. rewrite Hname in Hr.
    destruct (Forall2_lookup_r _ _ _ _ _ Hregs Hi) as (field & _ & l & Hl & ->).
    simpl in Hr. rewrite Hr, Hkey in Hl. injection Hl as <-.
    unfold filterField. by rewrite Hr.
Qed.

(** C5. The attributes of a generated entity filter type are, in order, the
    fields that are not relation-valued; a name borne by relation-valued
    fields only has no attribute. *)
Theorem generateFilterInputType_skips_relations
    (classes : list BaseEntity.t) (s : State)
    (properties : list FilterFieldDefinition.t) :
  filterTypes s !! filterTypeKey classes = None →
  collectProperties storage classes [] = Normal properties →
  ∃ cls s1 c,
    generateFilterInputType FILTER_OPERATION_PREFIX storage classes s = (Normal cls, s1)
    ∧ heap s1 !! cls = Some c
    ∧ map propertyKey (classFields c)
        = map FilterFieldDefinition.name
            (filter (λ field, isRelation storage field = false) properties)
    ∧ ∀ field,
        field ∈ properties →
        (∀ other, other ∈ properties →
                  FilterFieldDefinition.name other = FilterFieldDefinition.name field →
                  isRelation storage other = true) →
        FilterFieldDefinition.name field ∉ map propertyKey (classFields c).
Proof.
  intros Hmiss Hprops.
  assert (Hplace : heap (placeholderState (filterTypeKey classes) s) !! length (heap s)
                   = Some (placeholderClass (filterTypeKey classes))).
  { fresh_class. }
  destruct (loop_fields FILTER_OPERATION_PREFIX storage (length (heap s))
              (concatClassNames classes) properties _ _ Hplace)
    as (regs & Hfinal & Hregs).
  assert (Hkeys : map propertyKey regs
                  = map FilterFieldDefinition.name
                      (filter (λ field, isRelation storage field = false) properties)).
  { clear Hfinal. induction Hregs as [|field r fields regs (l & _ & ->) _ IH]; [done|].
    simpl. by rewrite IH. }
  eexists _, _, _. split; [|split; [exact Hfinal|split; [done|]]].
  - rewrite generateFilterInputType_miss by done. by rewrite Hprops.
  - intros field _ Hall. simpl. rewrite Hkeys.
    intros (other & Hname & [Hrel Hin]%list_elem_of_filter)%list_elem_of_fmap.
    rewrite (Hall other Hin (eq_sym Hname)) in Hrel. done.
Qed.

(** C6, amended. On a cache miss, the first entity without custom filter
    fields for which the calls into the host return and whose registry entry
    then has no field list makes the call throw the error that names it.
    Nothing is tried again: the entities after it are not looked at, and the
    state is the one reached when the error was thrown. *)
Theorem generateFilterInputType_uninitialized
    (before after : list BaseEntity.t) (typeFn : BaseEntity.t) (s : State)
    (properties : list FilterFieldDefinition.t)
    (compiled : option ObjectTypeMetadata.t) :
  let found := getObjectTypeMetadataByTarget storage (TClass (BaseEntity.ident typeFn)) in
  filterTypes s !! filterTypeKey (before ++ typeFn :: after) = None →
  collectProperties storage before [] = Normal properties →
  BaseEntity.customFilterData typeFn = None →
  PartialType storage typeFn = Normal tt →
  loadClassPluginMetadata storage found = Normal tt →
  compileClassMetadata storage found = Normal compiled →
  (∀ inherited,
     findInheritedType storage typeFn = Some inherited →
     loadClassPluginMetadata storage (Some inherited) = Normal tt
     ∧ ∃ compiledInherited,
         compileClassMetadata storage (Some inherited) = Normal compiledInherited) →
  (found ≫= λ _, compiled) ≫= ObjectTypeMetadata.properties = None →
  generateFilterInputType FILTER_OPERATION_PREFIX storage (before ++ typeFn :: after) s
    = (Throw {| message := "DTO " +:+ BaseEntity.name typeFn
                             +:+ " hasn't been initialized yet" |},
       placeholderState (filterTypeKey (before ++ typeFn :: after)) s).
Proof.
  intros found Hmiss Hbefore Hcustom Hpartial Hload Hcompile Hinherited Hnone.
  rewrite generateFilterInputType_miss by done.
  rewrite collectProperties_app, Hbefore. simpl. rewrite Hcustom.
  unfold registryProperties. fold found.
  rewrite Hpartial, Hload, Hcompile. simpl.
  destruct (findInheritedType storage typeFn) as [inherited|] eqn:Hfind; simpl.
  - destruct (Hinherited inherited eq_refl) as (-> & compiledInherited & ->). simpl.
    by rewrite Hnone.
  - by rewrite Hnone.
Qed.

(** ** The root filter type and the decorator *)

Lemma fullTypeKey_names again classes :
  map BaseEntity.name again = map BaseEntity.name classes →
  fullTypeKey again = fullTypeKey classes.
Proof. unfold fullTypeKey, concatClassNames. by intros ->. Qed.

Lemma attributeView_nullable key typeFunc :
  attributeView {| propertyKey := key; returnTypeFunc := typeFunc;
                   fieldOptions := {["nullable" := JBoolean true]} |}
    = (key, (λ f : ReturnTypeFunc, f tt) <$> typeFunc, Some (JBoolean true)).
Proof. unfold attributeView. simpl. by rewrite lookup_singleton_eq. Qed.

Lemma discriminatorOptions_lookup :
  discriminatorOptions FILTER_DECORATOR_NAME_METADATA_KEY !! "defaultValue"
    = Some (JString FILTER_DECORATOR_NAME_METADATA_KEY)
  ∧ discriminatorOptions FILTER_DECORATOR_NAME_METADATA_KEY !! "nullable" = None.
Proof.
  unfold discriminatorOptions. split.
  - rewrite lookup_insert_ne by done. by rewrite lookup_singleton_eq.
  - rewrite lookup_insert_ne by done. by rewrite lookup_singleton_ne.
Qed.

(** C7. The root filter type is cached in [filterFullTypes] under "where",
    the concatenated names and "Input"; building it leaves the cache of
    entity filter types alone. The class extends the entity filter type, so it
    exposes every attribute of it, and declares three attributes of its own:
    the discriminator [_name_] whose default is the reserved constant, and
    the nullable [and] and [or], both lists of the entity filter type. A
    second call for the same names returns the same class. *)
Theorem getFilterFullInputType_root
    (storage' : TypeMetadataStorage) (classes : list BaseEntity.t) (s : State)
    (FilterInputType : loc) (s1 : State) :
  filterFullTypes s !! fullTypeKey classes = None →
  generateFilterInputType FILTER_OPERATION_PREFIX storage classes s
    = (Normal FilterInputType, s1) →
  ∃ root s2 own,
    getFilterFullInputType FILTER_OPERATION_PREFIX FILTER_DECORATOR_NAME_METADATA_KEY
      storage classes s = (Normal root, s2)
    ∧ fullTypeKey classes = "where" +:+ concatClassNames classes +:+ "Input"
    ∧ filterFullTypes s2 !! fullTypeKey classes = Some root
    ∧ filterTypes s2 = filterTypes s1
    ∧ heap s2 !! root = Some own
    ∧ superClass own = Some FilterInputType
    ∧ map attributeView (classFields own)
        = [ ("_name_", None, None);
            ("and", Some (TList (TSynth FilterInputType)), Some (JBoolean true));
            ("or", Some (TList (TSynth FilterInputType)), Some (JBoolean true)) ]
    ∧ (lookupAttribute (heap s2) root "_name_" ≫= λ r, fieldOptions r !! "defaultValue")
        = Some (JString FILTER_DECORATOR_NAME_METADATA_KEY)
    ∧ (∀ fuel, exposedFields (S fuel) (heap s2) root
               = exposedFields fuel (heap s2) FilterInputType ++ classFields own)
    ∧ (∀ c r, heap s1 !! FilterInputType = Some c → r ∈ classFields c →
              r ∈ exposedFields 2 (heap s2) root)
    ∧ (∀ again,
         map BaseEntity.name again = map BaseEntity.name classes →
         getFilterFullInputType FILTER_OPERATION_PREFIX FILTER_DECORATOR_NAME_METADATA_KEY
           storage' again s2 = (Normal root, s2)).
Proof.
  intros Hmiss Hgen.
  assert (Hroot : (heap s1 ++ [entityWhereInputClass FILTER_DECORATOR_NAME_METADATA_KEY
                                 (fullTypeKey classes) FilterInputType]) !! length (heap s1)
                  = Some (entityWhereInputClass FILTER_DECORATOR_NAME_METADATA_KEY
                            (fullTypeKey classes) FilterInputType)).
  { apply lookup_snoc. }
  destruct discriminatorOptions_lookup as [Hdefault Hnullable].
  eexists _, _, _. split.
  { rewrite getFilterFullInputType_miss by done. by rewrite Hgen. }
  split; [done|]. split; [simpl; by rewrite lookup_insert_eq|].
  split; [done|]. split; [exact Hroot|]. split; [done|].
  split.
  { simpl. rewrite !attributeView_nullable. unfold attributeView. simpl.
    by rewrite Hnullable. }
  split.
  { unfold lookupAttribute. simpl. rewrite Hroot. simpl. exact Hdefault. }
  split.
  { intros fuel. simpl. by rewrite Hroot. }
  split.
  { intros c r Hc Hr. simpl. rewrite Hroot. simpl.
    rewrite (lookup_app_l_Some _ _ _ _ Hc).
    apply elem_of_app. left. apply elem_of_app. by right. }
  intros again Hnames. apply getFilterFullInputType_hit.
  rewrite (fullTypeKey_names _ _ Hnames). simpl. by rewrite lookup_insert_eq.
Qed.

Lemma collectCustomFields_concat typeFunctions :
  collectCustomFields typeFunctions
    = concat (map (λ x, if BaseEntity.filterInputType x
                        then map customFieldOf (BaseEntity.getFields x tt)
                        else []) typeFunctions).
Proof.
  unfold collectCustomFields.
  enough (Hgen : ∀ acc,
    foldl (λ acc x, if BaseEntity.filterInputType x
                    then acc ++ map customFieldOf (BaseEntity.getFields x tt)
                    else acc) acc typeFunctions
    = acc ++ concat (map (λ x, if BaseEntity.filterInputType x
                               then map customFieldOf (BaseEntity.getFields x tt)
                               else []) typeFunctions)) by apply Hgen.
  induction typeFunctions as [|x typeFunctions IH]; intros acc.
  - simpl. by rewrite app_nil_r.
  - simpl. rewrite IH. destruct (BaseEntity.filterInputType x); [|done].
    by rewrite app_assoc.
Qed.

(** C8, amended. The decorator [Filter] returns registers the root filter type
    as an argument that is nullable, defaults to the empty object, and is
    named "where" unless [options.name] gives a name. It stores, under the
    method that owns the parameter (the target and the property name, not the
    parameter index), the list of custom fields: for each entity with custom
    filter fields, in order, one entry per field holding that field's name,
    type function and expression. *)
Theorem Filter_registers_argument
    (baseEntity : unit → BaseEntity.t + list BaseEntity.t)
    (options : option IFilterDecoratorParams.t) (s : State) (root : loc) (s1 : State) :
  let typeFunctions :=
    match baseEntity tt with inl single => [single] | inr several => several end in
  getFilterFullInputType FILTER_OPERATION_PREFIX FILTER_DECORATOR_NAME_METADATA_KEY
    storage typeFunctions s = (Normal root, s1) →
  ∃ decorator,
    Filter FILTER_OPERATION_PREFIX FILTER_DECORATOR_NAME_METADATA_KEY
      FILTER_DECORATOR_CUSTOM_FIELDS_METADATA_KEY storage baseEntity options s
      = (Normal decorator, s1)
    ∧ (∀ target propertyName paramIndex s',
         ∃ s2 registered,
           decorator target propertyName paramIndex s' = (Normal tt, s2)
           ∧ argsMetadata s2 = argsMetadata s' ++ [registered]
           ∧ argsTarget registered = target
           ∧ argsPropertyName registered = propertyName
           ∧ argsParamIndex registered = paramIndex
           ∧ ArgsOptions.type (argsOptions registered) tt = TSynth root
           ∧ ArgsOptions.nullable (argsOptions registered) = true
           ∧ ArgsOptions.defaultValue (argsOptions registered) = JEmptyObject
           ∧ ArgsOptions.name (argsOptions registered) = argumentName options
           ∧ reflectMetadata s2
               !! (FILTER_DECORATOR_CUSTOM_FIELDS_METADATA_KEY, (target, propertyName))
               = Some (concat (map
                   (λ x,
                      if BaseEntity.filterInputType x
                      then map (λ field,
                             {| CustomFilterFieldDefinition.name :=
                                  FilterInputTypeFieldMetadata.name field;
                                CustomFilterFieldDefinition.typeFn :=
                                  FilterInputTypeFieldMetadata.typeFn field;
                                CustomFilterFieldDefinition.sqlExp :=
                                  FilterInputTypeFieldMetadata.sqlExp field |})
                             (BaseEntity.getFields x tt)
                      else []) typeFunctions))
           ∧ (∀ key target' propertyName',
                (target', propertyName') ≠ (target, propertyName) →
                reflectMetadata s2 !! (key, (target', propertyName'))
                  = reflectMetadata s' !! (key, (target', propertyName'))))
    ∧ argumentName None = "where"
    ∧ argumentName (Some {| IFilterDecoratorParams.name := None |}) = "where"
    ∧ (∀ n, n ≠ "" →
            argumentName (Some {| IFilterDecoratorParams.name := Some n |}) = n).
Proof.
  intros typeFunctions Hroot. eexists. split; [|split; [|split; [done|split; [done|]]]].
  - unfold Filter. fold typeFunctions. by rewrite (bind_Normal _ _ _ root s1 Hroot).
  - intros target propertyName paramIndex s'. eexists _, _.
    split; [reflexivity|]. simpl. repeat (split; [done|]). split.
    + by rewrite lookup_insert_eq, collectCustomFields_concat.
    + intros key target' propertyName' Hne. rewrite lookup_insert_ne; [done|congruence].
  - intros n Hn. unfold argumentName. simpl. by case_decide.
Qed.

(** Every attribute of a fresh field predicate type follows [arityRule] and is
    nullable, whatever the field. *)
Lemma generateFilterPropertyType_attributes field parentName s :
  propertyTypes s !! propertyTypeKey (FilterFieldDefinition.name field) parentName = None →
  ∃ cls s1 c,
    generateFilterPropertyType FILTER_OPERATION_PREFIX field parentName s = (Normal cls, s1)
    ∧ heap s1 !! cls = Some c
    ∧ map attributeView (classFields c)
        = map (λ op, (operationPropertyKey FILTER_OPERATION_PREFIX op,
                      Some (arityRule op (FilterFieldDefinition.typeFn field tt)),
                      Some (JBoolean true)))
              Object_keys_OperationQuery.
Proof.
  intros Hmiss. eexists _, _, _. split; [by apply generateFilterPropertyType_miss|].
  split; [fresh_class|].
  unfold propertyFilterClass. cbn [classFields]. rewrite map_map.
  apply map_ext. intros op. unfold attributeView.
  rewrite operationField_nullable. simpl. by rewrite operationReturnType_arityRule.
Qed.




End Properties.

(** C1, at the input where the source leaves the rule: [notin] is not among
    [arrayLikeOperations], so for a [String] field its attribute is typed
    [String], while [in], [between] and [notbetween] are typed as lists of
    [String] and [null] as [Boolean]. All thirteen attributes are nullable. *)
Theorem generateFilterPropertyType_notin_scalar :
  ∃ cls s c,
    generateFilterPropertyType None Task_title "Task" initialState = (Normal cls, s)
    ∧ heap s !! cls = Some c
    ∧ map attributeView (classFields c)
        = [ ("eq", Some TString, Some (JBoolean true));
            ("neq", Some TString, Some (JBoolean true));
            ("gt", Some TString, Some (JBoolean true));
            ("gte", Some TString, Some (JBoolean true));
            ("lt", Some TString, Some (JBoolean true));
            ("lte", Some TString, Some (JBoolean true));
            ("in", Some (TList TString), Some (JBoolean true));
            ("notin", Some TString, Some (JBoolean true));
            ("like", Some TString, Some (JBoolean true));
            ("notlike", Some TString, Some (JBoolean true));
            ("between", Some (TList TString), Some (JBoolean true));
            ("notbetween", Some (TList TString), Some (JBoolean true));
            ("null", Some TBoolean, Some (JBoolean true)) ]
    ∧ attributeType (heap s) cls "notin" = Some TString
    ∧ attributeType (heap s) cls "notin" ≠ Some (TList TString).
Proof.
  eexists _, _, _. split; [by apply generateFilterPropertyType_miss|].
  split; [reflexivity|]. by vm_compute.
Qed.

Lemma generateFilterPropertyType_first_declaration_kept_witness :
  ∃ cls s1,
    generateFilterPropertyType None A_x "AB" initialState = (Normal cls, s1)
    ∧ heap s1 !! cls = Some (propertyFilterClass None A_x "AB")
    ∧ generateFilterPropertyType None B_x "AB" s1 = (Normal cls, s1).
Proof.
  apply (generateFilterPropertyType_first_declaration_kept None A_x B_x "AB" initialState);
    reflexivity.
Defined.

(** C2, as stated, fails: the entities named [a] and [aa] have distinct names,
    and the lists [a, aa] and [aa, a] concatenate to one key, so the second
    call returns the class of the first. *)
Lemma generateFilterInputType_order_collision :
  BaseEntity.name entity_a ≠ BaseEntity.name entity_aa
  ∧ ∃ cls s1,
      generateFilterInputType None sampleStorage [entity_a; entity_aa] initialState
        = (Normal cls, s1)
      ∧ generateFilterInputType None sampleStorage [entity_aa; entity_a] s1
        = (Normal cls, s1).
Proof.
  split; [done|]. eexists _, _. split.
  - by rewrite generateFilterInputType_miss.
  - apply generateFilterInputType_hit.
    rewrite (generateFilterInputType_cached None sampleStorage [entity_a; entity_aa]
               initialState 0 _); [done|].
    by rewrite generateFilterInputType_miss.
Qed.

Lemma generateFilterInputType_memoized_by_concatenation_witness :
  ∃ cls s1,
    generateFilterInputType None sampleStorage [entity_A; entity_B] initialState
      = (Normal cls, s1)
    ∧ generateFilterInputType None sampleStorage [entity_A; entity_B] s1 = (Normal cls, s1)
    ∧ ∀ cls' s2,
        generateFilterInputType None sampleStorage [entity_B; entity_A] s1
          = (Normal cls', s2) →
        cls' ≠ cls.
Proof.
  eexists _, _. split; [by rewrite generateFilterInputType_miss|].
  destruct (generateFilterInputType_memoized_by_concatenation None sampleStorage
              sampleStorage [entity_A; entity_B] initialState 0 _ wf_initialState
              ltac:(by rewrite generateFilterInputType_miss)) as [Hsame Hother].
  split; [by apply Hsame|].
  intros cls' s2. by apply Hother.
Defined.

Lemma generateFilterInputType_placeholder_first_witness :
  ∃ s1, generateFilterInputType None sampleStorage [Node] initialState = (Normal 0, s1).
Proof.
  destruct (generateFilterInputType_placeholder_first None sampleStorage [Node]
              initialState eq_refl)
    as (_ & _ & _ & _ & _ & outcome & s1 & Hrun & Houtcome).
  exists s1. rewrite Hrun. simpl in Houtcome. by rewrite Houtcome.
Defined.

(** C4, as stated, fails: [A] declares [x] as a [String], [B] declares [x] as
    an [Int]; what the type generated for [A, B] has under [x] is the
    predicate type of a [String], in both applications of [Field]. *)
Lemma generateFilterInputType_merge_not_last :
  ∃ cls s1 c,
    generateFilterInputType None sampleStorage [entity_A; entity_B] initialState
      = (Normal cls, s1)
    ∧ heap s1 !! cls = Some c
    ∧ map attributeView (classFields c)
        = [ ("x", Some (TSynth 1), Some (JBoolean true));
            ("x", Some (TSynth 1), Some (JBoolean true)) ]
    ∧ attributeType (heap s1) 1 "eq" = Some TString
    ∧ FilterFieldDefinition.typeFn B_x tt = TInt
    ∧ attributeType (heap s1) 1 "eq" ≠ Some (FilterFieldDefinition.typeFn B_x tt).
Proof.
  eexists _, _, _. split; [by rewrite generateFilterInputType_miss|].
  split; [reflexivity|]. by vm_compute.
Qed.

Lemma generateFilterInputType_merge_first_wins_witness :
  ∃ cls s1 c fieldType,
    generateFilterInputType None sampleStorage [entity_A; entity_B] initialState
      = (Normal cls, s1)
    ∧ heap s1 !! cls = Some c
    ∧ heap s1 !! fieldType = Some (propertyFilterClass None A_x (concatClassNames [entity_A; entity_B]))
    ∧ filterField A_x fieldType ∈ classFields c
    ∧ ∀ r, r ∈ classFields c → propertyKey r = FilterFieldDefinition.name B_x →
           r = filterField A_x fieldType.
Proof.
  apply (generateFilterInputType_merge_first_wins None sampleStorage entity_A entity_B
           initialState [A_x] [B_x] [] [] A_x B_x);
    try reflexivity; [constructor | apply list_elem_of_here].
Defined.

Lemma generateFilterInputType_skips_relations_witness :
  ∃ cls s1 c,
    generateFilterInputType None sampleStorage [Node] initialState = (Normal cls, s1)
    ∧ heap s1 !! cls = Some c
    ∧ map propertyKey (classFields c) = ["label"]
    ∧ "parent" ∉ map propertyKey (classFields c).
Proof.
  destruct (generateFilterInputType_skips_relations None sampleStorage [Node]
              initialState [Node_label; Node_parent] eq_refl eq_refl)
    as (cls & s1 & c & Hrun & Hc & Hkeys & Hskip).
  exists cls, s1, c. split; [done|split; [done|split; [done|]]].
  apply (Hskip Node_parent).
  - apply list_elem_of_further, list_elem_of_here.
  - intros other Hin Hname.
    apply elem_of_cons in Hin as [->|Hin]; [done|].
    by apply elem_of_cons in Hin as [->|Hin%elem_of_nil].
Defined.

(** C6, as stated, fails: the registry has no field list for [Ghost], which
    has no custom filter fields; the first call for [Task, Ghost] throws and
    leaves the empty class cached, and the next call returns that class
    without any error. *)
Lemma generateFilterInputType_uninitialized_not_rethrown :
  BaseEntity.customFilterData Ghost = None
  ∧ getObjectTypeMetadataByTarget sampleStorage (TClass (BaseEntity.ident Ghost))
      ≫= ObjectTypeMetadata.properties = None
  ∧ generateFilterInputType None sampleStorage [Task; Ghost] initialState
      = (Throw {| message := "DTO Ghost hasn't been initialized yet" |},
         placeholderState "TaskGhostPropertyFilterType" initialState)
  ∧ generateFilterInputType None sampleStorage [Task; Ghost]
      (placeholderState "TaskGhostPropertyFilterType" initialState)
      = (Normal 0, placeholderState "TaskGhostPropertyFilterType" initialState).
Proof.
  split; [done|]. split; [done|]. split.
  - by rewrite generateFilterInputType_miss.
  - by apply generateFilterInputType_hit.
Qed.

Lemma generateFilterInputType_uninitialized_witness :
  generateFilterInputType None sampleStorage [Task; Ghost] initialState
    = (Throw {| message := "DTO Ghost hasn't been initialized yet" |},
       placeholderState "TaskGhostPropertyFilterType" initialState).
Proof.
  apply (generateFilterInputType_uninitialized None sampleStorage [Task] [] Ghost
           initialState [Task_title; Task_done]
           (Some (ObjectTypeMetadata.mk "Ghost" None)));
    try reflexivity.
  intros inherited Hfind. discriminate Hfind.
Defined.

Lemma getFilterFullInputType_root_witness :
  ∃ root s2,
    getFilterFullInputType None sampleNameKey sampleStorage [Task] initialState
      = (Normal root, s2)
    ∧ filterFullTypes s2 !! "whereTaskInput" = Some root
    ∧ (lookupAttribute (heap s2) root "_name_" ≫= λ r, fieldOptions r !! "defaultValue")
        = Some (JString sampleNameKey).
Proof.
  destruct (getFilterFullInputType_root None sampleNameKey sampleStorage sampleStorage
              [Task] initialState 0 _ eq_refl
              ltac:(by rewrite generateFilterInputType_miss))
    as (root & s2 & own & Hrun & _ & Hcached & _ & _ & _ & _ & Hdefault & _).
  by exists root, s2.
Defined.

Lemma Filter_registers_argument_witness :
  ∃ decorator s1 s2 registered,
    Filter None sampleNameKey sampleCustomFieldsKey sampleStorage (λ _, inr [User; Task])
      None initialState = (Normal decorator, s1)
    ∧ decorator 0 "users" 0 s1 = (Normal tt, s2)
    ∧ argsMetadata s2 = [registered]
    ∧ ArgsOptions.name (argsOptions registered) = "where"
    ∧ reflectMetadata s2 !! (sampleCustomFieldsKey, (0, "users"))
        = Some [ {| CustomFilterFieldDefinition.name := "fullName";
                    CustomFilterFieldDefinition.typeFn := λ _, TString;
                    CustomFilterFieldDefinition.sqlExp := "concat(fname,' ',lname)" |} ].
Proof.
  destruct (getFilterFullInputType None sampleNameKey sampleStorage [User; Task]
              initialState) as [outcome s1] eqn:Hrun.
  assert (Hout : outcome = Normal 4).
  { change outcome with (fst (outcome, s1)). rewrite <- Hrun. by vm_compute. }
  assert (Hargs : argsMetadata s1 = []).
  { change s1 with (snd (outcome, s1)). rewrite <- Hrun. by vm_compute. }
  subst outcome.
  destruct (Filter_registers_argument None sampleNameKey sampleCustomFieldsKey sampleStorage
              (λ _, inr [User; Task]) None initialState 4 s1 Hrun)
    as (decorator & Hfilter & Hdecorate & _).
  destruct (Hdecorate 0 "users" 0 s1)
    as (s2 & registered & Hrun2 & Hreg & _ & _ & _ & _ & _ & _ & Hname & Hmeta & _).
  exists decorator, s1, s2, registered.
  rewrite Hargs in Hreg. done.
Defined.



(** ** Further properties of the generators *)

Section MoreFacts.

Variable FILTER_OPERATION_PREFIX : option string.
Variable FILTER_DECORATOR_NAME_METADATA_KEY : string.
Variable FILTER_DECORATOR_CUSTOM_FIELDS_METADATA_KEY : string.
Variable storage : TypeMetadataStorage.

Lemma extends_refl s : extends s s.
Proof. by split. Qed.

Lemma extends_trans s1 s2 s3 : extends s1 s2 → extends s2 s3 → extends s1 s3.
Proof. intros [] []. split; eauto. Qed.

Lemma generateFilterInputType_extends classes s :
  extends s (generateFilterInputType FILTER_OPERATION_PREFIX storage classes s).2.
Proof.
  destruct (filterTypes s !! filterTypeKey classes) as [found|] eqn:Hlookup.
  - rewrite (generateFilterInputType_hit _ _ _ _ found) by done. apply extends_refl.
  - rewrite generateFilterInputType_miss by done.
    destruct (collectProperties storage classes []) as [properties|e]; simpl.
    + destruct (loop_caches FILTER_OPERATION_PREFIX storage (length (heap s))
                  (concatClassNames classes) properties
                  (placeholderState (filterTypeKey classes) s)) as (Hft & Hfull & _).
      split.
      * intros l c Hl. apply loop_heap_other.
        { apply lookup_lt_Some in Hl. lia. }
        simpl. by apply lookup_app_l_Some.
      * by rewrite Hfull.
      * rewrite Hft. simpl. intros k l Hk.
        rewrite lookup_insert_ne; [done|]. intros <-. congruence.
      * intros k l Hk. by apply loop_propertyTypes_mono.
    + split; simpl; try done.
      * intros l c Hl. by apply lookup_app_l_Some.
      * intros k l Hk. rewrite lookup_insert_ne; [done|]. intros <-. congruence.
Qed.

(** The entity generator leaves the root cache and the decorator records alone. *)
Lemma generateFilterInputType_frame classes s :
  let s1 := (generateFilterInputType FILTER_OPERATION_PREFIX storage classes s).2 in
  filterFullTypes s1 = filterFullTypes s
  ∧ reflectMetadata s1 = reflectMetadata s
  ∧ argsMetadata s1 = argsMetadata s.
Proof.
  destruct (filterTypes s !! filterTypeKey classes) as [found|] eqn:Hlookup; simpl.
  - by rewrite (generateFilterInputType_hit _ _ _ _ found).
  - rewrite generateFilterInputType_miss by done.
    destruct (collectProperties storage classes []) as [properties|e]; simpl; [|done].
    by destruct (loop_caches FILTER_OPERATION_PREFIX storage (length (heap s))
                   (concatClassNames classes) properties
                   (placeholderState (filterTypeKey classes) s)) as (_ & -> & -> & ->).
Qed.

Lemma getFilterFullInputType_extends classes s :
  extends s (getFilterFullInputType FILTER_OPERATION_PREFIX
               FILTER_DECORATOR_NAME_METADATA_KEY storage classes s).2.
Proof.
  destruct (filterFullTypes s !! fullTypeKey classes) as [found|] eqn:Hlookup.
  - rewrite (getFilterFullInputType_hit _ _ _ _ _ found) by done. apply extends_refl.
  - rewrite getFilterFullInputType_miss by done.
    pose proof (generateFilterInputType_extends classes s) as Hgen.
    destruct (generateFilterInputType_frame classes s) as (Hfull & _).
    destruct (generateFilterInputType _ _ classes s) as [[FilterInputType|e] s1];
      [|done].
    simpl in *. eapply extends_trans; [exact Hgen|].
    split; simpl; try done.
    + intros l c Hl. by apply lookup_app_l_Some.
    + intros k l Hk. rewrite lookup_insert_ne; [done|]. intros <-. congruence.
Qed.

(** What [Filter] returns is [filterDecorator] around the root type. *)
Lemma Filter_eq baseEntity options s :
  let typeFunctions :=
    match baseEntity tt with inl single => [single] | inr several => several end in
  Filter FILTER_OPERATION_PREFIX FILTER_DECORATOR_NAME_METADATA_KEY
    FILTER_DECORATOR_CUSTOM_FIELDS_METADATA_KEY storage baseEntity options s
    = match getFilterFullInputType FILTER_OPERATION_PREFIX
              FILTER_DECORATOR_NAME_METADATA_KEY storage typeFunctions s with
      | (Normal root, s1) =>
          (Normal (filterDecorator FILTER_DECORATOR_CUSTOM_FIELDS_METADATA_KEY
                     (collectCustomFields typeFunctions) (argumentName options) root),
           s1)
      | (Throw e, s1) => (Throw e, s1)
      end.
Proof.
  intros typeFunctions. unfold Filter. fold typeFunctions.
  by destruct (getFilterFullInputType _ _ _ typeFunctions s) as [[root|e] s1] eqn:Hroot;
    [rewrite (bind_Normal _ _ _ root s1 Hroot) | rewrite (bind_Throw _ _ _ e s1 Hroot)].
Qed.

Lemma filterDecorator_eq metadataKey customFields argName root target propertyName
    paramIndex s :
  filterDecorator metadataKey customFields argName root target propertyName paramIndex s
    = (Normal tt,
       {| heap := heap s; filterFullTypes := filterFullTypes s;
          filterTypes := filterTypes s; propertyTypes := propertyTypes s;
          reflectMetadata :=
            <[(metadataKey, (target, propertyName)) := customFields]> (reflectMetadata s);
          argsMetadata := argsMetadata s ++
            [{| argsTarget := target; argsPropertyName := propertyName;
                argsParamIndex := paramIndex;
                argsOptions :=
                  {| ArgsOptions.name := argName; ArgsOptions.nullable := true;
                     ArgsOptions.defaultValue := JEmptyObject;
                     ArgsOptions.type := λ _, TSynth root |} |}] |}).
Proof. reflexivity. Qed.

Lemma getFilterFullInputType_cached classes s root s1 :
  getFilterFullInputType FILTER_OPERATION_PREFIX FILTER_DECORATOR_NAME_METADATA_KEY
    storage classes s = (Normal root, s1) →
  filterFullTypes s1 !! fullTypeKey classes = Some root.
Proof.
  destruct (filterFullTypes s !! fullTypeKey classes) as [found|] eqn:Hlookup.
  - rewrite (getFilterFullInputType_hit _ _ _ _ _ found) by done. by intros [= <- <-].
  - rewrite getFilterFullInputType_miss by done.
    destruct (generateFilterInputType _ _ classes s) as [[FilterInputType|e] s0]; [|done].
    intros [= <- <-]. simpl. by rewrite lookup_insert_eq.
Qed.

Lemma string_app_assoc (s1 s2 s3 : string) :
  (s1 +:+ s2) +:+ s3 = s1 +:+ (s2 +:+ s3).
Proof.
  induction s1 as [|a s1 IH]; [done|].
  change (String a s1 +:+ s2) with (String a (s1 +:+ s2)).
  change (String a (s1 +:+ s2) +:+ s3) with (String a ((s1 +:+ s2) +:+ s3)).
  change (String a s1 +:+ (s2 +:+ s3)) with (String a (s1 +:+ (s2 +:+ s3))).
  by rewrite IH.
Qed.

Lemma propertyTypeKey_concat n1 p1 n2 p2 :
  propertyTypeKey n1 p1 = propertyTypeKey n2 p2 ↔ n1 +:+ p1 = n2 +:+ p2.
Proof.
  unfold propertyTypeKey. rewrite <- !string_app_assoc. split.
  - apply string_app_inv_tail.
  - by intros ->.
Qed.

Lemma operationName_inj : Inj (=) (=) operationName.
Proof. intros op1 op2. by destruct op1, op2. Qed.

Lemma operationPropertyKey_inj : Inj (=) (=) (operationPropertyKey FILTER_OPERATION_PREFIX).
Proof.
  intros op1 op2. unfold operationPropertyKey.
  destruct FILTER_OPERATION_PREFIX as [prefix|]; [|apply operationName_inj].
  case_decide; [apply operationName_inj|].
  intros Heq%(inj (String.app prefix)). by apply operationName_inj.
Qed.

Lemma Object_keys_OperationQuery_NoDup : NoDup Object_keys_OperationQuery.
Proof. apply (bool_decide_unpack _). by vm_compute. Qed.

(** What one entity contributes, or why it cannot. *)
Lemma collectProperties_single typeFn :
  collectProperties storage [typeFn] []
    = match BaseEntity.customFilterData typeFn with
      | Some fields => Normal (map customProp fields)
      | None => registryProperties storage typeFn
      end.
Proof.
  simpl. destruct (BaseEntity.customFilterData typeFn); [done|].
  by destruct (registryProperties storage typeFn).
Qed.

Lemma loop_field_names PartialObjectType parentName fields s cls :
  heap s !! PartialObjectType = Some cls →
  ∃ c,
    heap (foldl (addFilterField_state FILTER_OPERATION_PREFIX storage PartialObjectType
                   parentName) s fields) !! PartialObjectType = Some c
    ∧ map propertyKey (classFields c)
        = map propertyKey (classFields cls)
            ++ map FilterFieldDefinition.name
                 (filter (λ field, isRelation storage field = false) fields).
Proof.
  intros Hcls.
  destruct (loop_fields FILTER_OPERATION_PREFIX storage PartialObjectType parentName
              fields s cls Hcls) as (regs & Hfinal & Hregs).
  eexists. split; [exact Hfinal|]. simpl. rewrite map_app. f_equal.
  clear Hfinal.
  induction Hregs as [|field r rest regs (l & _ & ->) _ IH]; [done|].
  simpl. by rewrite IH.
Qed.

(** On a miss, the first declaration of a name that is not relation-valued
    decides the predicate type of every attribute of that name. *)
Lemma generateFilterInputType_first_wins classes s pre first post :
  filterTypes s !! filterTypeKey classes = None →
  collectProperties storage classes [] = Normal (pre ++ first :: post) →
  Forall (λ field, isRelation storage field = true
                   ∨ FilterFieldDefinition.name field ≠ FilterFieldDefinition.name first)
         pre →
  isRelation storage first = false →
  propertyTypes s
    !! propertyTypeKey (FilterFieldDefinition.name first) (concatClassNames classes) = None →
  ∃ cls s1 c fieldType,
    generateFilterInputType FILTER_OPERATION_PREFIX storage classes s = (Normal cls, s1)
    ∧ heap s1 !! cls = Some c
    ∧ heap s1 !! fieldType
        = Some (propertyFilterClass FILTER_OPERATION_PREFIX first (concatClassNames classes))
    ∧ filterField first fieldType ∈ classFields c
    ∧ ∀ r, r ∈ classFields c →
           propertyKey r = FilterFieldDefinition.name first →
           r = filterField first fieldType.
Proof.
  intros Hmiss Hprops Hpre Hrel Hfresh.
  set (parentName := concatClassNames classes) in *.
  set (s0 := placeholderState (filterTypeKey classes) s).
  assert (Hplace : heap s0 !! length (heap s) = Some (placeholderClass (filterTypeKey classes)))
    by fresh_class.
  assert (Hlt : length (heap s) < length (heap s0)).
  { simpl. rewrite length_app. simpl. lia. }
  destruct (loop_first_wins FILTER_OPERATION_PREFIX storage (length (heap s)) parentName
              pre first post s0 Hlt Hfresh Hpre Hrel)
    as (fieldType & Hkey & Hobj & _).
  destruct (loop_fields FILTER_OPERATION_PREFIX storage (length (heap s)) parentName
              (pre ++ first :: post) s0 _ Hplace)
    as (regs & Hfinal & Hregs).
  eexists _, _, _, fieldType. split; [|split; [exact Hfinal|split; [exact Hobj|split]]].
  - rewrite generateFilterInputType_miss by done. by rewrite Hprops.
  - simpl.
    assert (Hin : first ∈ filter (λ field, isRelation storage field = false)
                              (pre ++ first :: post)).
    { apply list_elem_of_filter. split; [done|]. set_solver. }
    apply list_elem_of_lookup in Hin as [i Hi].
    destruct (Forall2_lookup_l _ _ _ _ _ Hregs Hi) as (r & Hr & l & Hl & ->).
    rewrite Hkey in Hl. injection Hl as <-.
    by apply list_elem_of_lookup_2 in Hr.
  - simpl. intros r [i Hi]%list_elem_of_lookup Hr.
    destruct (Forall2_lookup_r _ _ _ _ _ Hregs Hi) as (field & _ & l & Hl & ->).
    simpl in Hr. rewrite Hr, Hkey in Hl. injection Hl as <-.
    unfold filterField. by rewrite Hr.
Qed.

(** *** The naming invariant, step by step *)

Lemma cachesNamed_initialState : cachesNamed FILTER_OPERATION_PREFIX initialState.
Proof. split; intros *; simpl; by rewrite lookup_empty. Qed.

Lemma cachesNamed_appendField r PartialObjectType s :
  cachesNamed FILTER_OPERATION_PREFIX s →
  (∃ k, filterTypes s !! k = Some PartialObjectType) →
  cachesNamed FILTER_OPERATION_PREFIX
    (set_heap (alter (appendField r) PartialObjectType) s).
Proof.
  intros [Hpred Hfilt Hroot Hapart] [kP HP]. split; simpl.
  - intros k l Hk. destruct (Hpred k l Hk) as (c & Hc & Hrest). exists c.
    split; [|done]. rewrite list_lookup_alter_ne; [done|].
    intros Heq. subst. by apply (Hapart _ _ _ _ Hk HP).
  - intros k l Hk. destruct (Hfilt k l Hk) as (c & Hc & Hname & Hinput & Hsuper).
    destruct (decide (l = PartialObjectType)) as [->|Hne].
    + exists (appendField r c). by rewrite list_lookup_alter_eq, Hc.
    + exists c. by rewrite list_lookup_alter_ne.
  - intros k l Hk.
    destruct (Hroot k l Hk) as (c & parent & names & Hc & Hinput & Hrest).
    exists c, parent, names. split; [|done]. rewrite list_lookup_alter_ne; [done|].
    intros Heq. subst. destruct (Hfilt kP _ HP) as (c' & Hc' & _ & Hinput' & _).
    congruence.
  - done.
Qed.

Lemma cachesNamed_new_predicate field parentName s :
  cachesNamed FILTER_OPERATION_PREFIX s →
  cachesNamed FILTER_OPERATION_PREFIX
    (set_propertyTypes
       <[propertyTypeKey (FilterFieldDefinition.name field) parentName := length (heap s)]>
       (set_heap (λ h, h ++ [propertyFilterClass FILTER_OPERATION_PREFIX field parentName]) s)).
Proof.
  intros [Hpred Hfilt Hroot Hapart]. split; simpl.
  - intros k l. rewrite lookup_insert. case_decide as Hk.
    + intros [= <-]. subst k. eexists. split; [apply lookup_snoc|].
      split; [done|]. split; [done|]. unfold propertyFilterClass.
      cbn [classFields]. by rewrite map_map.
    + intros Hl. destruct (Hpred k l Hl) as (c & Hc & Hrest). exists c.
      split; [by apply lookup_app_l_Some|done].
  - intros k l Hk. destruct (Hfilt k l Hk) as (c & Hc & Hrest). exists c.
    split; [by apply lookup_app_l_Some|done].
  - intros k l Hk.
    destruct (Hroot k l Hk) as (c & parent & names & Hc & Hrest).
    exists c, parent, names. split; [by apply lookup_app_l_Some|done].
  - intros k1 l1 k2 l2. rewrite lookup_insert. case_decide.
    + intros [= <-] Hk2. destruct (Hfilt k2 l2 Hk2) as (c & Hc%lookup_lt_Some & _). lia.
    + apply Hapart.
Qed.

Lemma cachesNamed_step PartialObjectType parentName s field :
  cachesNamed FILTER_OPERATION_PREFIX s →
  (∃ k, filterTypes s !! k = Some PartialObjectType) →
  cachesNamed FILTER_OPERATION_PREFIX
    (addFilterField_state FILTER_OPERATION_PREFIX storage PartialObjectType parentName
       s field).
Proof.
  intros Hnamed Hcached. unfold addFilterField_state.
  destruct (isRelation storage field); [done|].
  destruct (propertyTypes s !! _) as [cached|].
  - by apply cachesNamed_appendField.
  - apply cachesNamed_appendField; [by apply cachesNamed_new_predicate|done].
Qed.

Lemma cachesNamed_loop PartialObjectType parentName fields s :
  cachesNamed FILTER_OPERATION_PREFIX s →
  (∃ k, filterTypes s !! k = Some PartialObjectType) →
  cachesNamed FILTER_OPERATION_PREFIX
    (foldl (addFilterField_state FILTER_OPERATION_PREFIX storage PartialObjectType
              parentName) s fields).
Proof.
  revert s. induction fields as [|field fields IH]; intros s Hnamed Hcached; [done|].
  simpl. apply IH; [by apply cachesNamed_step|].
  destruct (step_caches FILTER_OPERATION_PREFIX storage PartialObjectType parentName
              s field) as (-> & _). done.
Qed.

Lemma cachesNamed_placeholderState key s :
  cachesNamed FILTER_OPERATION_PREFIX s →
  filterTypes s !! key = None →
  cachesNamed FILTER_OPERATION_PREFIX (placeholderState key s).
Proof.
  intros [Hpred Hfilt Hroot Hapart] Hmiss. split; simpl.
  - intros k l Hk. destruct (Hpred k l Hk) as (c & Hc & Hrest). exists c.
    split; [by apply lookup_app_l_Some|done].
  - intros k l. rewrite lookup_insert. case_decide as Hk.
    + intros [= <-]. subst k. eexists. split; [apply lookup_snoc|done].
    + intros Hl. destruct (Hfilt k l Hl) as (c & Hc & Hrest). exists c.
      split; [by apply lookup_app_l_Some|done].
  - intros k l Hk.
    destruct (Hroot k l Hk) as (c & parent & names & Hc & Hinput & Hkey & Hsuper & Hparent & Hfields).
    exists c, parent, names. split; [by apply lookup_app_l_Some|].
    split; [done|]. split; [done|]. split; [done|]. split; [|done].
    rewrite lookup_insert_ne; [done|]. intros ->. congruence.
  - intros k1 l1 k2 l2 Hk1. rewrite lookup_insert. case_decide.
    + intros [= <-]. destruct (Hpred k1 l1 Hk1) as (c & Hc%lookup_lt_Some & _). lia.
    + by apply (Hapart k1 l1 k2 l2).
Qed.

Lemma cachesNamed_generateFilterInputType classes s :
  cachesNamed FILTER_OPERATION_PREFIX s →
  cachesNamed FILTER_OPERATION_PREFIX
    (generateFilterInputType FILTER_OPERATION_PREFIX storage classes s).2.
Proof.
  intros Hnamed.
  destruct (filterTypes s !! filterTypeKey classes) as [found|] eqn:Hlookup.
  - by rewrite (generateFilterInputType_hit _ _ _ _ found).
  - rewrite generateFilterInputType_miss by done.
    pose proof (cachesNamed_placeholderState _ _ Hnamed Hlookup) as Hplace.
    destruct (collectProperties storage classes []) as [properties|e]; [|done].
    simpl. apply cachesNamed_loop; [done|].
    exists (filterTypeKey classes). simpl. by rewrite lookup_insert_eq.
Qed.

Lemma cachesNamed_getFilterFullInputType classes s :
  cachesNamed FILTER_OPERATION_PREFIX s →
  cachesNamed FILTER_OPERATION_PREFIX
    (getFilterFullInputType FILTER_OPERATION_PREFIX FILTER_DECORATOR_NAME_METADATA_KEY
       storage classes s).2.
Proof.
  intros Hnamed.
  destruct (filterFullTypes s !! fullTypeKey classes) as [found|] eqn:Hlookup.
  - by rewrite (getFilterFullInputType_hit _ _ _ _ _ found).
  - rewrite getFilterFullInputType_miss by done.
    pose proof (cachesNamed_generateFilterInputType classes s Hnamed) as Hgen.
    destruct (generateFilterInputType_frame classes s) as (Hfull & _).
    destruct (generateFilterInputType _ _ classes s) as [[FilterInputType|e] s1] eqn:Hrun;
      [|done].
    apply generateFilterInputType_cached in Hrun. simpl in *.
    destruct Hgen as [Hpred Hfilt Hroot Hapart]. split; simpl.
    + intros k l Hk. destruct (Hpred k l Hk) as (c & Hc & Hrest). exists c.
      split; [by apply lookup_app_l_Some|done].
    + intros k l Hk. destruct (Hfilt k l Hk) as (c & Hc & Hrest). exists c.
      split; [by apply lookup_app_l_Some|done].
    + intros k l. rewrite lookup_insert. case_decide as Hk.
      * intros [= <-]. subst k.
        eexists _, FilterInputType, (concatClassNames classes).
        split; [apply lookup_snoc|]. by repeat split.
      * intros Hl.
        destruct (Hroot k l Hl) as (c & parent & names & Hc & Hrest).
        exists c, parent, names. split; [by apply lookup_app_l_Some|done].
    + done.
Qed.

Lemma cachesNamed_Filter baseEntity options s :
  cachesNamed FILTER_OPERATION_PREFIX s →
  cachesNamed FILTER_OPERATION_PREFIX
    (Filter FILTER_OPERATION_PREFIX FILTER_DECORATOR_NAME_METADATA_KEY
       FILTER_DECORATOR_CUSTOM_FIELDS_METADATA_KEY storage baseEntity options s).2.
Proof.
  intros Hnamed. rewrite Filter_eq.
  set (typeFunctions :=
         match baseEntity tt with inl single => [single] | inr several => several end).
  pose proof (cachesNamed_getFilterFullInputType typeFunctions s Hnamed) as Hroot.
  by destruct (getFilterFullInputType _ _ _ typeFunctions s) as [[root|e] s1].
Qed.

Lemma cachesNamed_decorator baseEntity options s0 decorator s1 target propertyName
    paramIndex s :
  Filter FILTER_OPERATION_PREFIX FILTER_DECORATOR_NAME_METADATA_KEY
    FILTER_DECORATOR_CUSTOM_FIELDS_METADATA_KEY storage baseEntity options s0
    = (Normal decorator, s1) →
  cachesNamed FILTER_OPERATION_PREFIX s →
  cachesNamed FILTER_OPERATION_PREFIX (decorator target propertyName paramIndex s).2.
Proof.
  rewrite Filter_eq.
  destruct (getFilterFullInputType _ _ _ _ s0) as [[root|e] s2]; [|done].
  intros [= <- <-] [Hpred Hfilt Hroot Hapart]. rewrite filterDecorator_eq. by split.
Qed.

End MoreFacts.

Section More.

Variable FILTER_OPERATION_PREFIX : option string.
Variable FILTER_DECORATOR_NAME_METADATA_KEY : string.
Variable FILTER_DECORATOR_CUSTOM_FIELDS_METADATA_KEY : string.
Variable storage : TypeMetadataStorage.

(** X1. Whatever a call of [Filter] does, and also when it throws, every class
    object that was in the store is still there unchanged, and every entry of
    the three caches still leads to the same class. *)
Theorem Filter_extends
    (baseEntity : unit → BaseEntity.t + list BaseEntity.t)
    (options : option IFilterDecoratorParams.t) (s : State) :
  extends s (Filter FILTER_OPERATION_PREFIX FILTER_DECORATOR_NAME_METADATA_KEY
               FILTER_DECORATOR_CUSTOM_FIELDS_METADATA_KEY storage baseEntity options s).2.
Proof.
  rewrite Filter_eq.
  set (typeFunctions :=
         match baseEntity tt with inl single => [single] | inr several => several end).
  pose proof (getFilterFullInputType_extends FILTER_OPERATION_PREFIX
                FILTER_DECORATOR_NAME_METADATA_KEY storage typeFunctions s) as Hroot.
  by destruct (getFilterFullInputType _ _ _ typeFunctions s) as [[root|e] s1].
Qed.

(** X2. A generation that throws leaves the empty class in the cache: the
    next call for the same names does not throw, whatever the registry says
    by then, and returns that class, which has no attribute. *)
Theorem generateFilterInputType_after_throw
    (storage' : TypeMetadataStorage) (classes again : list BaseEntity.t)
    (s : State) (e : JsError) :
  filterTypes s !! filterTypeKey classes = None →
  collectProperties storage classes [] = Throw e →
  map BaseEntity.name again = map BaseEntity.name classes →
  ∃ s1 c,
    generateFilterInputType FILTER_OPERATION_PREFIX storage classes s = (Throw e, s1)
    ∧ generateFilterInputType FILTER_OPERATION_PREFIX storage' again s1
        = (Normal (length (heap s)), s1)
    ∧ heap s1 !! length (heap s) = Some c
    ∧ classFields c = [].
Proof.
  intros Hmiss Hthrow Hnames. eexists _, _. split.
  { rewrite generateFilterInputType_miss by done. by rewrite Hthrow. }
  split; [|split; [fresh_class|done]].
  apply generateFilterInputType_hit. rewrite (filterTypeKey_names _ _ Hnames).
  simpl. by rewrite lookup_insert_eq.
Qed.

(** X3. When an entity is not initialized, [Filter] throws the same error and
    registers nothing: the root cache, the predicate cache, the metadata and
    the arguments are as before. A second call of [Filter] for the same
    entities then succeeds, and the root type it builds exposes the three
    attributes of its own and nothing else. *)
Theorem Filter_uninitialized
    (storage' : TypeMetadataStorage)
    (baseEntity : unit → BaseEntity.t + list BaseEntity.t)
    (options options' : option IFilterDecoratorParams.t) (s : State) (e : JsError) :
  let typeFunctions :=
    match baseEntity tt with inl single => [single] | inr several => several end in
  filterFullTypes s !! fullTypeKey typeFunctions = None →
  filterTypes s !! filterTypeKey typeFunctions = None →
  collectProperties storage typeFunctions [] = Throw e →
  let s1 := placeholderState (filterTypeKey typeFunctions) s in
  ∃ s2,
    Filter FILTER_OPERATION_PREFIX FILTER_DECORATOR_NAME_METADATA_KEY
      FILTER_DECORATOR_CUSTOM_FIELDS_METADATA_KEY storage baseEntity options s
      = (Throw e, s1)
    ∧ filterFullTypes s1 = filterFullTypes s
    ∧ propertyTypes s1 = propertyTypes s
    ∧ reflectMetadata s1 = reflectMetadata s
    ∧ argsMetadata s1 = argsMetadata s
    ∧ Filter FILTER_OPERATION_PREFIX FILTER_DECORATOR_NAME_METADATA_KEY
        FILTER_DECORATOR_CUSTOM_FIELDS_METADATA_KEY storage' baseEntity options' s1
        = (Normal (filterDecorator FILTER_DECORATOR_CUSTOM_FIELDS_METADATA_KEY
                     (collectCustomFields typeFunctions) (argumentName options')
                     (S (length (heap s)))),
           s2)
    ∧ map propertyKey (exposedFields 2 (heap s2) (S (length (heap s))))
        = ["_name_"; "and"; "or"].
Proof.
  intros typeFunctions Hfull Htypes Hthrow s1.
  assert (Hgen : generateFilterInputType FILTER_OPERATION_PREFIX storage typeFunctions s
                 = (Throw e, s1)).
  { rewrite generateFilterInputType_miss by done. by rewrite Hthrow. }
  assert (Hagain : generateFilterInputType FILTER_OPERATION_PREFIX storage' typeFunctions s1
                   = (Normal (length (heap s)), s1)).
  { apply generateFilterInputType_hit. simpl. by rewrite lookup_insert_eq. }
  assert (Hlen : length (heap s1) = S (length (heap s))).
  { simpl. rewrite length_app. simpl. lia. }
  eexists. split; [|split; [done|split; [done|split; [done|split; [done|split]]]]].
  - rewrite Filter_eq. fold typeFunctions.
    rewrite getFilterFullInputType_miss by done. by rewrite Hgen.
  - rewrite Filter_eq. fold typeFunctions.
    rewrite getFilterFullInputType_miss by done. by rewrite Hagain, Hlen.
  - cbn [exposedFields heap set_heap set_filterFullTypes]. rewrite <- Hlen, lookup_snoc.
    cbn [superClass entityWhereInputClass].
    rewrite lookup_app_l by lia.
    assert (Hplace : heap s1 !! length (heap s)
                     = Some (placeholderClass (filterTypeKey typeFunctions))) by fresh_class.
    by rewrite Hplace.
Qed.

(** X4. Once [Filter] has returned for a list of entities, a later call for
    entities of the same names in the same order creates nothing and changes
    nothing, and its decorator registers the very same root type, even when
    the registry or the entities' own field lists have changed since. *)
Theorem Filter_memoized
    (storage' : TypeMetadataStorage)
    (baseEntity baseEntity' : unit → BaseEntity.t + list BaseEntity.t)
    (options options' : option IFilterDecoratorParams.t)
    (s : State) (decorator : ParameterDecorator) (s1 : State) :
  let typeFunctions :=
    match baseEntity tt with inl single => [single] | inr several => several end in
  let typeFunctions' :=
    match baseEntity' tt with inl single => [single] | inr several => several end in
  map BaseEntity.name typeFunctions' = map BaseEntity.name typeFunctions →
  Filter FILTER_OPERATION_PREFIX FILTER_DECORATOR_NAME_METADATA_KEY
    FILTER_DECORATOR_CUSTOM_FIELDS_METADATA_KEY storage baseEntity options s
    = (Normal decorator, s1) →
  ∃ root,
    decorator = filterDecorator FILTER_DECORATOR_CUSTOM_FIELDS_METADATA_KEY
                  (collectCustomFields typeFunctions) (argumentName options) root
    ∧ Filter FILTER_OPERATION_PREFIX FILTER_DECORATOR_NAME_METADATA_KEY
        FILTER_DECORATOR_CUSTOM_FIELDS_METADATA_KEY storage' baseEntity' options' s1
        = (Normal (filterDecorator FILTER_DECORATOR_CUSTOM_FIELDS_METADATA_KEY
                     (collectCustomFields typeFunctions') (argumentName options') root),
           s1).
Proof.
  intros typeFunctions typeFunctions' Hnames. rewrite Filter_eq. fold typeFunctions.
  destruct (getFilterFullInputType _ _ _ typeFunctions s) as [[root|e] s0] eqn:Hroot;
    [|done].
  intros [= <- <-]. exists root. split; [done|].
  rewrite Filter_eq. fold typeFunctions'.
  rewrite (getFilterFullInputType_hit _ _ _ _ _ root); [done|].
  rewrite (fullTypeKey_names _ _ Hnames).
  by apply (getFilterFullInputType_cached _ _ _ _ _ _ _ Hroot).
Qed.

(** X5. Two parameters of one method decorated by [Filter]: both arguments
    are registered, in the order the decorators run, but the method holds one
    custom-field record, that of the decorator that ran last. The record of
    any other method is not touched, and neither are the store and the
    caches. *)
Theorem Filter_decorators_on_one_method
    (storage' : TypeMetadataStorage)
    (baseEntity1 baseEntity2 : unit → BaseEntity.t + list BaseEntity.t)
    (options1 options2 : option IFilterDecoratorParams.t)
    (s s1 s' s2 : State) (decorator1 decorator2 : ParameterDecorator)
    (target : nat) (propertyName : string) (index1 index2 : nat) (st : State) :
  Filter FILTER_OPERATION_PREFIX FILTER_DECORATOR_NAME_METADATA_KEY
    FILTER_DECORATOR_CUSTOM_FIELDS_METADATA_KEY storage baseEntity1 options1 s
    = (Normal decorator1, s1) →
  Filter FILTER_OPERATION_PREFIX FILTER_DECORATOR_NAME_METADATA_KEY
    FILTER_DECORATOR_CUSTOM_FIELDS_METADATA_KEY storage' baseEntity2 options2 s'
    = (Normal decorator2, s2) →
  ∃ st' first second,
    (decorator1 target propertyName index1;; decorator2 target propertyName index2) st
      = (Normal tt, st')
    ∧ argsMetadata st' = argsMetadata st ++ [first; second]
    ∧ argsParamIndex first = index1
    ∧ argsParamIndex second = index2
    ∧ reflectMetadata st'
        !! (FILTER_DECORATOR_CUSTOM_FIELDS_METADATA_KEY, (target, propertyName))
        = Some (collectCustomFields
                  match baseEntity2 tt with inl single => [single] | inr several => several end)
    ∧ (∀ key target' propertyName',
         (target', propertyName') ≠ (target, propertyName) →
         reflectMetadata st' !! (key, (target', propertyName'))
           = reflectMetadata st !! (key, (target', propertyName')))
    ∧ heap st' = heap st
    ∧ filterFullTypes st' = filterFullTypes st
    ∧ filterTypes st' = filterTypes st
    ∧ propertyTypes st' = propertyTypes st.
Proof.
  rewrite !Filter_eq.
  destruct (getFilterFullInputType _ _ storage _ s) as [[root1|e1] t1]; [|done].
  destruct (getFilterFullInputType _ _ storage' _ s') as [[root2|e2] t2]; [|done].
  intros [= <- <-] [= <- <-]. eexists _, _, _. split.
  { erewrite bind_Normal; [|apply filterDecorator_eq]. apply filterDecorator_eq. }
  cbn [argsMetadata reflectMetadata heap filterFullTypes filterTypes propertyTypes].
  split; [by rewrite <- app_assoc|]. split; [done|]. split; [done|].
  split; [by rewrite lookup_insert_eq|]. split; [|done].
  intros key target' propertyName' Hne.
  rewrite !lookup_insert_ne; [done|congruence..].
Qed.

(** X6. The attributes of a freshly generated field predicate type bear
    thirteen pairwise distinct names, whatever the operation prefix is. *)
Theorem generateFilterPropertyType_distinct_names
    (field : FilterFieldDefinition.t) (parentName : string) (s : State) :
  propertyTypes s !! propertyTypeKey (FilterFieldDefinition.name field) parentName = None →
  ∃ cls s1 c,
    generateFilterPropertyType FILTER_OPERATION_PREFIX field parentName s = (Normal cls, s1)
    ∧ heap s1 !! cls = Some c
    ∧ length (classFields c) = 13
    ∧ NoDup (map propertyKey (classFields c)).
Proof.
  intros Hmiss. eexists _, _, _. split; [by apply generateFilterPropertyType_miss|].
  split; [fresh_class|]. split; [done|].
  unfold propertyFilterClass. cbn [classFields]. rewrite map_map. cbn [propertyKey operationField].
  apply (@NoDup_fmap_2 _ _ _ (operationPropertyKey_inj FILTER_OPERATION_PREFIX)).
  apply Object_keys_OperationQuery_NoDup.
Qed.

(** X7. The predicate cache is keyed by the field name and the group key
    written one after the other: after a first generation, a field of another
    name in another group gets the class of the first exactly when the two
    concatenations are the same string; otherwise, on a miss of its own, it
    gets a new class. *)
Theorem generateFilterPropertyType_key_is_concatenation
    (first second : FilterFieldDefinition.t) (parent1 parent2 : string) (s : State) :
  propertyTypes s !! propertyTypeKey (FilterFieldDefinition.name first) parent1 = None →
  propertyTypes s !! propertyTypeKey (FilterFieldDefinition.name second) parent2 = None →
  ∃ cls s1,
    generateFilterPropertyType FILTER_OPERATION_PREFIX first parent1 s = (Normal cls, s1)
    ∧ (FilterFieldDefinition.name first +:+ parent1
         = FilterFieldDefinition.name second +:+ parent2 →
       generateFilterPropertyType FILTER_OPERATION_PREFIX second parent2 s1
         = (Normal cls, s1))
    ∧ (FilterFieldDefinition.name first +:+ parent1
         ≠ FilterFieldDefinition.name second +:+ parent2 →
       ∃ cls' s2,
         generateFilterPropertyType FILTER_OPERATION_PREFIX second parent2 s1
           = (Normal cls', s2)
         ∧ cls' ≠ cls
         ∧ heap s2 !! cls'
             = Some (propertyFilterClass FILTER_OPERATION_PREFIX second parent2)).
Proof.
  intros Hmiss1 Hmiss2. eexists _, _.
  split; [by apply generateFilterPropertyType_miss|]. split.
  - intros Hsame%propertyTypeKey_concat. apply generateFilterPropertyType_hit.
    rewrite <- Hsame. simpl. by rewrite lookup_insert_eq.
  - intros Hdiff. eexists _, _. split; [|split].
    + apply generateFilterPropertyType_miss. simpl.
      rewrite lookup_insert_ne; [done|].
      intros Heq. by apply Hdiff, propertyTypeKey_concat.
    + simpl. rewrite length_app. simpl. lia.
    + fresh_class.
Qed.

(** X10. With no entity at all, [Filter] does not fail: it caches an empty
    class named [PropertyFilterType], builds the root type [whereInput]
    around it, and creates no predicate type. *)
Theorem Filter_no_entities
    (options : option IFilterDecoratorParams.t) (s : State) :
  filterFullTypes s !! "whereInput" = None →
  filterTypes s !! "PropertyFilterType" = None →
  ∃ s1,
    Filter FILTER_OPERATION_PREFIX FILTER_DECORATOR_NAME_METADATA_KEY
      FILTER_DECORATOR_CUSTOM_FIELDS_METADATA_KEY storage (λ _, inr []) options s
      = (Normal (filterDecorator FILTER_DECORATOR_CUSTOM_FIELDS_METADATA_KEY []
                   (argumentName options) (S (length (heap s)))),
         s1)
    ∧ heap s1 = heap s ++ [ placeholderClass "PropertyFilterType";
                            entityWhereInputClass FILTER_DECORATOR_NAME_METADATA_KEY
                              "whereInput" (length (heap s)) ]
    ∧ propertyTypes s1 = propertyTypes s
    ∧ filterTypes s1 !! "PropertyFilterType" = Some (length (heap s))
    ∧ filterFullTypes s1 !! "whereInput" = Some (S (length (heap s))).
Proof.
  intros Hfull Htypes. eexists. split.
  { rewrite Filter_eq. cbv beta iota.
    rewrite getFilterFullInputType_miss by done.
    rewrite generateFilterInputType_miss by done. cbn [collectProperties foldl].
    do 3 f_equal. simpl. rewrite length_app. simpl. lia. }
  simpl. split; [by rewrite <- app_assoc|]. split; [done|].
  split; [by rewrite lookup_insert_eq|].
  rewrite length_app. simpl. rewrite Nat.add_1_r. by rewrite lookup_insert_eq.
Qed.

(** X11. Every attribute of a fresh field predicate type is nullable, even
    when the field's own options say otherwise; every other option of the
    field is handed on as it is. *)
Theorem generateFilterPropertyType_options
    (field : FilterFieldDefinition.t) (parentName : string) (s : State) :
  propertyTypes s !! propertyTypeKey (FilterFieldDefinition.name field) parentName = None →
  ∃ cls s1 c,
    generateFilterPropertyType FILTER_OPERATION_PREFIX field parentName s = (Normal cls, s1)
    ∧ heap s1 !! cls = Some c
    ∧ ∀ r, r ∈ classFields c →
        fieldOptions r !! "nullable" = Some (JBoolean true)
        ∧ ∀ k, k ≠ "nullable" →
               fieldOptions r !! k = FilterFieldDefinition.options field ≫= (.!! k).
Proof.
  intros Hmiss. eexists _, _, _. split; [by apply generateFilterPropertyType_miss|].
  split; [fresh_class|].
  intros r (op & -> & _)%list_elem_of_fmap. simpl. unfold operationFieldOptions. split.
  - by rewrite lookup_insert_eq.
  - intros k Hk. rewrite lookup_insert_ne by done.
    by destruct (FilterFieldDefinition.options field).
Qed.

(** X12. An entity that extends another gets the parent's fields before its
    own, when the calls into the host return. So when the parent and the
    entity both declare a field of one name, the attribute of that name
    carries the predicate type built from the parent's declaration; the
    entity's own declaration of it is not used. *)
Theorem generateFilterInputType_inherited_first
    (typeFn : BaseEntity.t) (s : State)
    (classMetadata inheritedType compiledMetadata compiledInherited : ObjectTypeMetadata.t)
    (own pre post : list FilterFieldDefinition.t)
    (inheritedField ownField : FilterFieldDefinition.t) :
  BaseEntity.customFilterData typeFn = None →
  PartialType storage typeFn = Normal tt →
  getObjectTypeMetadataByTarget storage (TClass (BaseEntity.ident typeFn))
    = Some classMetadata →
  loadClassPluginMetadata storage (Some classMetadata) = Normal tt →
  compileClassMetadata storage (Some classMetadata) = Normal (Some compiledMetadata) →
  ObjectTypeMetadata.properties compiledMetadata = Some own →
  findInheritedType storage typeFn = Some inheritedType →
  loadClassPluginMetadata storage (Some inheritedType) = Normal tt →
  compileClassMetadata storage (Some inheritedType) = Normal (Some compiledInherited) →
  ObjectTypeMetadata.properties compiledInherited = Some (pre ++ inheritedField :: post) →
  Forall (λ field, isRelation storage field = true
                   ∨ FilterFieldDefinition.name field
                       ≠ FilterFieldDefinition.name inheritedField) pre →
  isRelation storage inheritedField = false →
  ownField ∈ own →
  FilterFieldDefinition.name ownField = FilterFieldDefinition.name inheritedField →
  filterTypes s !! filterTypeKey [typeFn] = None →
  propertyTypes s
    !! propertyTypeKey (FilterFieldDefinition.name inheritedField) (BaseEntity.name typeFn)
    = None →
  ∃ cls s1 c fieldType,
    generateFilterInputType FILTER_OPERATION_PREFIX storage [typeFn] s = (Normal cls, s1)
    ∧ heap s1 !! cls = Some c
    ∧ map propertyKey (classFields c)
        = map FilterFieldDefinition.name
            (filter (λ field, isRelation storage field = false)
                    ((pre ++ inheritedField :: post) ++ own))
    ∧ heap s1 !! fieldType
        = Some (propertyFilterClass FILTER_OPERATION_PREFIX inheritedField
                  (BaseEntity.name typeFn))
    ∧ ∀ r, r ∈ classFields c →
           propertyKey r = FilterFieldDefinition.name ownField →
           r = filterField inheritedField fieldType.
Proof.
  intros Hcustom Hpartial Hmeta Hload Hcompile Hown Hfind Hload' Hcompile' Hinherited
    Hpre Hrel Hin Hname Hmiss Hfresh.
  assert (Hprops : collectProperties storage [typeFn] []
                   = Normal (pre ++ inheritedField :: (post ++ own))).
  { rewrite collectProperties_single, Hcustom. unfold registryProperties.
    rewrite Hpartial, Hmeta, Hload, Hcompile, Hfind. simpl.
    rewrite Hload', Hcompile'. simpl. rewrite Hown, Hinherited. simpl.
    by rewrite <- app_assoc. }
  destruct (generateFilterInputType_first_wins FILTER_OPERATION_PREFIX storage [typeFn] s
              pre inheritedField (post ++ own) Hmiss Hprops Hpre Hrel Hfresh)
    as (cls & s1 & c & fieldType & Hrun & Hc & Hobj & _ & Hall).
  exists cls, s1, c, fieldType. split; [done|]. split; [done|]. split.
  - rewrite generateFilterInputType_miss in Hrun by done. rewrite Hprops in Hrun.
    injection Hrun as <- <-.
    assert (Hplace : heap (placeholderState (filterTypeKey [typeFn]) s) !! length (heap s)
                     = Some (placeholderClass (filterTypeKey [typeFn]))) by fresh_class.
    destruct (loop_field_names FILTER_OPERATION_PREFIX storage (length (heap s))
                (concatClassNames [typeFn]) (pre ++ inheritedField :: (post ++ own)) _ _ Hplace)
      as (c' & Hfinal & Hnames).
    rewrite Hfinal in Hc. injection Hc as <-. rewrite Hnames. simpl.
    by rewrite <- app_assoc.
  - split; [done|]. intros r Hr Hkey. apply Hall; [done|]. by rewrite Hkey.
Qed.

Lemma reachable_invariant (s : State) :
  reachable FILTER_OPERATION_PREFIX FILTER_DECORATOR_NAME_METADATA_KEY
    FILTER_DECORATOR_CUSTOM_FIELDS_METADATA_KEY s →
  cachesNamed FILTER_OPERATION_PREFIX s.
Proof.
  induction 1 as [|storage0 baseEntity options s _ IH
                  |storage0 baseEntity options s0 decorator s1 target propertyName
                     paramIndex s Hfilter _ IH].
  - apply cachesNamed_initialState.
  - by apply cachesNamed_Filter.
  - by eapply cachesNamed_decorator.
Qed.

(** X13. In every state that calls of [Filter] and of its decorators can
    reach, each cached class is in the store and bears its cache key as its
    schema name: predicate types are abstract with the thirteen operation
    attributes, entity filter types are abstract, and each root type is
    concrete, declares [_name_], [and], [or], and extends the entity filter
    type cached for the same names. *)
Theorem reachable_cachesNamed (s : State) :
  reachable FILTER_OPERATION_PREFIX FILTER_DECORATOR_NAME_METADATA_KEY
    FILTER_DECORATOR_CUSTOM_FIELDS_METADATA_KEY s →
  cachesNamed FILTER_OPERATION_PREFIX s.
Proof.
  intros Hreach. induction Hreach
    as [|storage0 baseEntity options s _ IH
        |storage0 baseEntity options s0 decorator s1 target propertyName paramIndex s
           Hfilter _ IH].
  - apply cachesNamed_initialState.
  - apply cachesNamed_Filter, IH.
  - exact (cachesNamed_decorator _ _ _ _ _ _ _ _ _ _ _ _ _ Hfilter IH).
Qed.

(** X14. In every reachable state no class is shared: within each of the
    three caches two keys never lead to one class. *)
Theorem reachable_caches_injective (s : State) :
  reachable FILTER_OPERATION_PREFIX FILTER_DECORATOR_NAME_METADATA_KEY
    FILTER_DECORATOR_CUSTOM_FIELDS_METADATA_KEY s →
  (∀ k1 k2 l, propertyTypes s !! k1 = Some l → propertyTypes s !! k2 = Some l → k1 = k2)
  ∧ (∀ k1 k2 l, filterTypes s !! k1 = Some l → filterTypes s !! k2 = Some l → k1 = k2)
  ∧ (∀ k1 k2 l, filterFullTypes s !! k1 = Some l → filterFullTypes s !! k2 = Some l →
                k1 = k2).
Proof.
  intros [Hpred Hfilt Hroot _]%reachable_invariant. split; [|split].
  - intros k1 k2 l H1 H2.
    destruct (Hpred _ _ H1) as (c1 & Hc1 & Hn1 & _).
    destruct (Hpred _ _ H2) as (c2 & Hc2 & Hn2 & _). congruence.
  - intros k1 k2 l H1 H2.
    destruct (Hfilt _ _ H1) as (c1 & Hc1 & Hn1 & _).
    destruct (Hfilt _ _ H2) as (c2 & Hc2 & Hn2 & _). congruence.
  - intros k1 k2 l H1 H2.
    destruct (Hroot _ _ H1) as (c1 & p1 & n1 & Hc1 & Hi1 & _).
    destruct (Hroot _ _ H2) as (c2 & p2 & n2 & Hc2 & Hi2 & _). congruence.
Qed.

(** X15. The predicate cache and the cache of entity filter types are two
    maps whose keys end alike. When one string is a key of both, it leads to
    two different classes, and both bear that string as their schema name. *)
Theorem reachable_one_name_two_classes (s : State) (k : string) (l1 l2 : loc) :
  reachable FILTER_OPERATION_PREFIX FILTER_DECORATOR_NAME_METADATA_KEY
    FILTER_DECORATOR_CUSTOM_FIELDS_METADATA_KEY s →
  propertyTypes s !! k = Some l1 →
  filterTypes s !! k = Some l2 →
  l1 ≠ l2
  ∧ ∃ c1 c2,
      heap s !! l1 = Some c1 ∧ heap s !! l2 = Some c2
      ∧ inputType c1 = Some {| inputTypeName := k; isAbstract := true |}
      ∧ inputType c2 = Some {| inputTypeName := k; isAbstract := true |}.
Proof.
  intros [Hpred Hfilt _ Hapart]%reachable_invariant H1 H2.
  split; [by apply (Hapart _ _ _ _ H1 H2)|].
  destruct (Hpred _ _ H1) as (c1 & Hc1 & _ & Hi1 & _).
  destruct (Hfilt _ _ H2) as (c2 & Hc2 & _ & Hi2 & _).
  by exists c1, c2.
Qed.

End More.

(** ** The further properties at sample inputs *)

Lemma generateFilterInputType_after_throw_witness :
  ∃ s1 c,
    generateFilterInputType None sampleStorage [Task; Ghost] initialState
      = (Throw {| message := "DTO Ghost hasn't been initialized yet" |}, s1)
    ∧ generateFilterInputType None sampleStorage [Task; Ghost] s1 = (Normal 0, s1)
    ∧ heap s1 !! 0 = Some c
    ∧ classFields c = [].
Proof.
  apply (generateFilterInputType_after_throw None sampleStorage sampleStorage
           [Task; Ghost] [Task; Ghost] initialState); reflexivity.
Defined.

Lemma Filter_uninitialized_witness :
  ∃ s2,
    Filter None sampleNameKey sampleCustomFieldsKey sampleStorage
      (λ _, inr [Task; Ghost]) None initialState
      = (Throw {| message := "DTO Ghost hasn't been initialized yet" |},
         placeholderState "TaskGhostPropertyFilterType" initialState)
    ∧ Filter None sampleNameKey sampleCustomFieldsKey sampleStorage
        (λ _, inr [Task; Ghost]) None
        (placeholderState "TaskGhostPropertyFilterType" initialState)
        = (Normal (filterDecorator sampleCustomFieldsKey [] "where" 1), s2)
    ∧ map propertyKey (exposedFields 2 (heap s2) 1) = ["_name_"; "and"; "or"].
Proof.
  destruct (Filter_uninitialized None sampleNameKey sampleCustomFieldsKey sampleStorage
              sampleStorage (λ _, inr [Task; Ghost]) None None initialState
              {| message := "DTO Ghost hasn't been initialized yet" |}
              eq_refl eq_refl eq_refl)
    as (s2 & Hthrow & _ & _ & _ & _ & Hretry & Hexposed).
  by exists s2.
Defined.

Lemma Filter_memoized_witness :
  ∃ s1 root,
    Filter None sampleNameKey sampleCustomFieldsKey sampleStorage (λ _, inl Task) None
      initialState = (Normal (filterDecorator sampleCustomFieldsKey [] "where" 3), s1)
    ∧ Filter None sampleNameKey sampleCustomFieldsKey sampleStorage (λ _, inr [Task])
        (Some {| IFilterDecoratorParams.name := Some "filter" |}) s1
        = (Normal (filterDecorator sampleCustomFieldsKey [] "filter" root), s1).
Proof.
  destruct (getFilterFullInputType None sampleNameKey sampleStorage [Task] initialState)
    as [outcome s1] eqn:Hrun.
  assert (Hout : outcome = Normal 3).
  { change outcome with (fst (outcome, s1)). rewrite <- Hrun. by vm_compute. }
  subst outcome.
  assert (Hfilter :
    Filter None sampleNameKey sampleCustomFieldsKey sampleStorage (λ _, inl Task) None
      initialState = (Normal (filterDecorator sampleCustomFieldsKey [] "where" 3), s1)).
  { rewrite Filter_eq. cbv beta iota. by rewrite Hrun. }
  destruct (Filter_memoized None sampleNameKey sampleCustomFieldsKey sampleStorage
              sampleStorage (λ _, inl Task) (λ _, inr [Task]) None
              (Some {| IFilterDecoratorParams.name := Some "filter" |})
              initialState _ s1 eq_refl Hfilter) as (root & _ & Hagain).
  by exists s1, root.
Defined.

Lemma Filter_decorators_on_one_method_witness :
  ∃ s1 st,
    Filter None sampleNameKey sampleCustomFieldsKey sampleStorage (λ _, inl Task) None
      initialState = (Normal (filterDecorator sampleCustomFieldsKey [] "where" 3), s1)
    ∧ (filterDecorator sampleCustomFieldsKey [] "where" 3 0 "find" 1;;
       filterDecorator sampleCustomFieldsKey [] "where" 3 0 "find" 0) s1 = (Normal tt, st)
    ∧ reflectMetadata st !! (sampleCustomFieldsKey, (0, "find")) = Some [].
Proof.
  destruct (getFilterFullInputType None sampleNameKey sampleStorage [Task] initialState)
    as [outcome s1] eqn:Hrun.
  assert (Hout : outcome = Normal 3).
  { change outcome with (fst (outcome, s1)). rewrite <- Hrun. by vm_compute. }
  subst outcome.
  assert (Hfilter :
    Filter None sampleNameKey sampleCustomFieldsKey sampleStorage (λ _, inl Task) None
      initialState = (Normal (filterDecorator sampleCustomFieldsKey [] "where" 3), s1)).
  { rewrite Filter_eq. cbv beta iota. by rewrite Hrun. }
  destruct (Filter_decorators_on_one_method None sampleNameKey sampleCustomFieldsKey
              sampleStorage sampleStorage (λ _, inl Task) (λ _, inl Task) None None
              initialState s1 initialState s1 _ _ 0 "find" 1 0 s1 Hfilter Hfilter)
    as (st & first & second & Hrun2 & _ & _ & _ & Hmeta & _).
  by exists s1, st.
Defined.

Lemma generateFilterPropertyType_distinct_names_witness :
  ∃ cls s1 c,
    generateFilterPropertyType (Some "_") Task_title "Task" initialState = (Normal cls, s1)
    ∧ heap s1 !! cls = Some c
    ∧ length (classFields c) = 13
    ∧ NoDup (map propertyKey (classFields c)).
Proof.
  apply (generateFilterPropertyType_distinct_names (Some "_") Task_title "Task"
           initialState); reflexivity.
Defined.

Lemma generateFilterPropertyType_key_is_concatenation_witness :
  ∃ cls s1,
    generateFilterPropertyType None (column "ab" TString) "c" initialState
      = (Normal cls, s1)
    ∧ generateFilterPropertyType None (column "a" TInt) "bc" s1 = (Normal cls, s1).
Proof.
  destruct (generateFilterPropertyType_key_is_concatenation None
              (column "ab" TString) (column "a" TInt) "c" "bc" initialState
              eq_refl eq_refl) as (cls & s1 & Hrun & Hsame & _).
  exists cls, s1. split; [done|]. by apply Hsame.
Defined.

Lemma Filter_no_entities_witness :
  ∃ s1,
    Filter None sampleNameKey sampleCustomFieldsKey sampleStorage (λ _, inr []) None
      initialState
      = (Normal (filterDecorator sampleCustomFieldsKey [] "where" 1), s1)
    ∧ heap s1 = [ placeholderClass "PropertyFilterType";
                  entityWhereInputClass sampleNameKey "whereInput" 0 ].
Proof.
  destruct (Filter_no_entities None sampleNameKey sampleCustomFieldsKey sampleStorage None
              initialState eq_refl eq_refl) as (s1 & Hrun & Hheap & _).
  by exists s1.
Defined.

Lemma generateFilterPropertyType_options_witness :
  ∃ cls s1 c,
    generateFilterPropertyType None
      {| FilterFieldDefinition.name := "title";
         FilterFieldDefinition.typeFn := λ _, TString;
         FilterFieldDefinition.options :=
           Some (<["nullable" := JBoolean false]> {["description" := JString "Title"]});
         FilterFieldDefinition.qlExp := None |}
      "Task" initialState = (Normal cls, s1)
    ∧ heap s1 !! cls = Some c
    ∧ ∀ r, r ∈ classFields c →
           fieldOptions r !! "nullable" = Some (JBoolean true)
           ∧ fieldOptions r !! "description" = Some (JString "Title").
Proof.
  destruct (generateFilterPropertyType_options None
              {| FilterFieldDefinition.name := "title";
                 FilterFieldDefinition.typeFn := λ _, TString;
                 FilterFieldDefinition.options :=
                   Some (<["nullable" := JBoolean false]> {["description" := JString "Title"]});
                 FilterFieldDefinition.qlExp := None |}
              "Task" initialState eq_refl) as (cls & s1 & c & Hrun & Hc & Hall).
  exists cls, s1, c. split; [done|]. split; [done|].
  intros r Hr. destruct (Hall r Hr) as [Hnullable Hother].
  split; [done|]. by rewrite Hother.
Defined.

Lemma generateFilterInputType_inherited_first_witness :
  ∃ cls s1 c fieldType,
    generateFilterInputType None inheritanceStorage [Child] initialState = (Normal cls, s1)
    ∧ heap s1 !! cls = Some c
    ∧ map propertyKey (classFields c) = ["x"; "x"]
    ∧ heap s1 !! fieldType = Some (propertyFilterClass None Base_x "Child")
    ∧ ∀ r, r ∈ classFields c → propertyKey r = "x" → r = filterField Base_x fieldType.
Proof.
  apply (generateFilterInputType_inherited_first None inheritanceStorage Child initialState
           (ObjectTypeMetadata.mk "Child" (Some [Child_x]))
           (ObjectTypeMetadata.mk "Base" (Some [Base_x]))
           (ObjectTypeMetadata.mk "Child" (Some [Child_x]))
           (ObjectTypeMetadata.mk "Base" (Some [Base_x]))
           [Child_x] [] [] Base_x Child_x);
    try reflexivity; [constructor | apply list_elem_of_here].
Defined.

Lemma afterTask_reachable : reachable None "filter-name" "filter-custom-fields" afterTask.
Proof. apply reachable_Filter, reachable_initial. Qed.

Lemma afterTitleTask_reachable :
  reachable None "filter-name" "filter-custom-fields" afterTitleTask.
Proof. apply reachable_Filter, afterTask_reachable. Qed.

Lemma reachable_cachesNamed_witness : cachesNamed None afterTask.
Proof.
  apply (reachable_cachesNamed None "filter-name" "filter-custom-fields" afterTask).
  apply afterTask_reachable.
Defined.

Lemma reachable_caches_injective_witness :
  (∀ k1 k2 l, propertyTypes afterTask !! k1 = Some l →
              propertyTypes afterTask !! k2 = Some l → k1 = k2)
  ∧ (∀ k1 k2 l, filterTypes afterTask !! k1 = Some l →
                filterTypes afterTask !! k2 = Some l → k1 = k2)
  ∧ (∀ k1 k2 l, filterFullTypes afterTask !! k1 = Some l →
                filterFullTypes afterTask !! k2 = Some l → k1 = k2).
Proof.
  apply (reachable_caches_injective None "filter-name" "filter-custom-fields" afterTask).
  apply afterTask_reachable.
Defined.

Lemma reachable_one_name_two_classes_witness :
  propertyTypes afterTitleTask !! "titleTaskPropertyFilterType" = Some 1
  ∧ filterTypes afterTitleTask !! "titleTaskPropertyFilterType" = Some 4
  ∧ ∃ c1 c2,
      heap afterTitleTask !! 1 = Some c1 ∧ heap afterTitleTask !! 4 = Some c2
      ∧ inputType c1 = Some {| inputTypeName := "titleTaskPropertyFilterType";
                               isAbstract := true |}
      ∧ inputType c2 = Some {| inputTypeName := "titleTaskPropertyFilterType";
                               isAbstract := true |}.
Proof.
  assert (H1 : propertyTypes afterTitleTask !! "titleTaskPropertyFilterType" = Some 1)
    by (by vm_compute).
  assert (H2 : filterTypes afterTitleTask !! "titleTaskPropertyFilterType" = Some 4)
    by (by vm_compute).
  split; [done|]. split; [done|].
  apply (reachable_one_name_two_classes None "filter-name" "filter-custom-fields"
           afterTitleTask _ 1 4 afterTitleTask_reachable H1 H2).
Defined.

(** C8, as stated, fails: the record goes with the method, not with the
    parameter. Parameter 1 of [find] is decorated for [User], which has the
    custom field [fullName], parameter 0 for [Task], which has none. Both
    arguments are registered, but the one record of [find] is the empty list
    of [Task]: the custom field of [User]'s parameter is attached nowhere. *)
Lemma Filter_metadata_not_per_parameter :
  ∃ s1 s2 st,
    Filter None sampleNameKey sampleCustomFieldsKey sampleStorage (λ _, inl User) None
      initialState
      = (Normal (filterDecorator sampleCustomFieldsKey
                   [ {| CustomFilterFieldDefinition.name := "fullName";
                        CustomFilterFieldDefinition.typeFn := λ _, TString;
                        CustomFilterFieldDefinition.sqlExp := "concat(fname,' ',lname)" |} ]
                   "where" 2), s1)
    ∧ Filter None sampleNameKey sampleCustomFieldsKey sampleStorage (λ _, inl Task) None s1
        = (Normal (filterDecorator sampleCustomFieldsKey [] "where" 6), s2)
    ∧ (filterDecorator sampleCustomFieldsKey
         [ {| CustomFilterFieldDefinition.name := "fullName";
              CustomFilterFieldDefinition.typeFn := λ _, TString;
              CustomFilterFieldDefinition.sqlExp := "concat(fname,' ',lname)" |} ]
         "where" 2 0 "find" 1;;
       filterDecorator sampleCustomFieldsKey [] "where" 6 0 "find" 0) s2 = (Normal tt, st)
    ∧ map (λ a, (argsParamIndex a, ArgsOptions.type (argsOptions a) tt)) (argsMetadata st)
        = [(1, TSynth 2); (0, TSynth 6)]
    ∧ reflectMetadata st !! (sampleCustomFieldsKey, (0, "find")) = Some [].
Proof.
  destruct (getFilterFullInputType None sampleNameKey sampleStorage [User] initialState)
    as [outcome1 s1] eqn:Hrun1.
  assert (Hout1 : outcome1 = Normal 2).
  { change outcome1 with (fst (outcome1, s1)). rewrite <- Hrun1. by vm_compute. }
  subst outcome1.
  destruct (getFilterFullInputType None sampleNameKey sampleStorage [Task] s1)
    as [outcome2 s2] eqn:Hrun2.
  assert (Hout2 : outcome2 = Normal 6).
  { change outcome2 with (fst (outcome2, s2)). rewrite <- Hrun2.
    change s1 with (snd (@Normal loc 2, s1)). rewrite <- Hrun1. by vm_compute. }
  assert (Hargs : argsMetadata s2 = []).
  { change s2 with (snd (outcome2, s2)). rewrite <- Hrun2.
    change s1 with (snd (@Normal loc 2, s1)). rewrite <- Hrun1. by vm_compute. }
  subst outcome2.
  exists s1, s2. eexists. split; [|split; [|split]].
  - rewrite Filter_eq. cbv beta iota. by rewrite Hrun1.
  - rewrite Filter_eq. cbv beta iota. by rewrite Hrun2.
  - erewrite bind_Normal; [|apply filterDecorator_eq]. apply filterDecorator_eq.
  - cbn [argsMetadata reflectMetadata]. rewrite Hargs. split; [done|].
    by rewrite lookup_insert_eq.
Qed.
